(** * paper2slides-llm: the text structuring core of
      [src/data_processing/extract_paper.py]

    A shallow embedding of [clean_text], [extract_paper_metadata],
    [split_into_sections], [split_into_paragraphs] and the assembling part of
    [process_single_pdf], together with the parts of Python's [str] and [re]
    they call, and the properties the specification states about them.

    A Python [str] is a sequence of Unicode code points: here a [list N].
    The Unicode tables the program consults through [re] and [str.lower]
    belong to the Python runtime, not to the repository: they are the fields
    of a record [unicode] every function takes. *)

From Stdlib Require Import String Ascii.
From Stdlib Require Import List NArith ZArith Bool Arith Lia.
From Stdlib Require Import FunctionalExtensionality.
Import ListNotations.

Local Open Scope N_scope.

(** ** Characters and strings *)

Definition char := N.
Definition str := list char.

Definition NL : char := 10.
Definition CR : char := 13.

(** A Python literal written as a Rocq string: every character is its code
    point, and the two characters backslash, n stand for a newline. *)
Fixpoint py (s : string) : str :=
  match s with
  | EmptyString => []
  | String c s' =>
      match s' with
      | String d s'' =>
          if (N_of_ascii c =? 92) && (N_of_ascii d =? 110)
          then NL :: py s''
          else N_of_ascii c :: py s'
      | EmptyString => [N_of_ascii c]
      end
  end.

(** [str.isspace] of one character, which is also what [\s] matches in a
    [str] pattern: CPython's [_PyUnicode_IsWhitespace]. *)
Definition is_space (c : char) : bool :=
  ((9 <=? c) && (c <=? 13)) || ((28 <=? c) && (c <=? 32))
  || (c =? 133) || (c =? 160) || (c =? 5760)
  || ((8192 <=? c) && (c <=? 8202))
  || (c =? 8232) || (c =? 8233) || (c =? 8239) || (c =? 8287) || (c =? 12288).

(** The line boundaries of [str.splitlines]: CPython's
    [_PyUnicode_IsLinebreak]. *)
Definition is_linebreak (c : char) : bool :=
  ((10 <=? c) && (c <=? 13)) || ((28 <=? c) && (c <=? 30))
  || (c =? 133) || (c =? 8232) || (c =? 8233).

(** The tables of the Unicode database the program reaches through the
    runtime. *)
Record unicode : Type := Unicode {
  (** general category Nd: the characters [\d] matches *)
  is_decimal : char -> bool;
  (** [str.lower] *)
  lower : str -> str;
  (** under [re.IGNORECASE], does the pattern character [x] match the text
      character [c] *)
  ci_eq : char -> char -> bool
}.

(** ** The [str] methods the program calls *)

Definition is_empty (s : str) : bool :=
  match s with [] => true | _ => false end.

Fixpoint dropwhile (p : char -> bool) (s : str) : str :=
  match s with
  | [] => []
  | c :: s' => if p c then dropwhile p s' else s
  end.

Definition lstrip (s : str) : str := dropwhile is_space s.
Definition rstrip (s : str) : str := rev (dropwhile is_space (rev s)).

(** [s.strip()] *)
Definition strip (s : str) : str := rstrip (lstrip s).

(** [s.splitlines()]: a line ends at every line boundary, CR LF counts as
    one, and no empty line is reported after the last boundary. *)
Fixpoint splitlines (s : str) : list str :=
  match s with
  | [] => []
  | c :: s' =>
      if is_linebreak c then
        [] :: match s' with
              | d :: s'' => if (c =? CR) && (d =? NL) then splitlines s''
                            else splitlines s'
              | [] => []
              end
      else
        match splitlines s' with
        | [] => [[c]]
        | l :: ls => (c :: l) :: ls
        end
  end.

(** Is [p] a prefix of [s]. *)
Fixpoint starts_with (p s : str) : bool :=
  match p, s with
  | [], _ => true
  | x :: p', c :: s' => (x =? c) && starts_with p' s'
  | _ :: _, [] => false
  end.

(** [s.split(sep)] for a non-empty [sep]: the occurrences of [sep] are
    taken from the left and do not overlap; [skip] counts the characters of
    the separator still to pass over. *)
Fixpoint split_go (sep : str) (skip : nat) (s : str) : list str :=
  match skip with
  | S n =>
      match s with
      | [] => [[]]
      | _ :: s' => split_go sep n s'
      end
  | O =>
      match s with
      | [] => [[]]
      | c :: s' =>
          if starts_with sep s then [] :: split_go sep (length sep - 1) s'
          else match split_go sep 0 s' with
               | l :: ls => (c :: l) :: ls
               | [] => [[c]]
               end
      end
  end.

Definition split (sep s : str) : list str := split_go sep 0 s.

(** [sep.join(parts)] *)
Fixpoint join (sep : str) (parts : list str) : str :=
  match parts with
  | [] => []
  | [p] => p
  | p :: ps => p ++ sep ++ join sep ps
  end.

(** [s[a:b]] for indices that are not negative. *)
Definition slice (s : str) (a b : nat) : str := firstn (b - a) (skipn a s).

(** Does [sub] occur in [s]. *)
Fixpoint contains (sub s : str) : bool :=
  starts_with sub s
  || match s with
     | [] => false
     | _ :: s' => contains sub s'
     end.

(** ** Exceptions

    A statement of the program that can raise gives an [outcome]. *)

Inductive exn : Type :=
| AttributeError       (* 'NoneType' object has no attribute 'strip' *)
| OSError              (* a file cannot be opened or written *)
| UnicodeEncodeError.  (* a character utf-8 cannot encode: a lone surrogate *)

Inductive outcome (A : Type) : Type :=
| Returns (a : A)
| Raises (e : exn).

Arguments Returns {A} a.
Arguments Raises {A} e.

Definition bind {A B : Type} (o : outcome A) (k : A -> outcome B) : outcome B :=
  match o with
  | Returns a => k a
  | Raises e => Raises e
  end.

Notation "x <- o ;; k" := (bind o (fun x => k))
  (at level 61, o at next level, right associativity).

(** ** The part of [re] the program uses

    The patterns of the program are written in the syntax below; every
    repetition in them is over a single character set.  Matching is the
    backtracking search of [re]: alternatives left to right, greedy
    repetitions longest first, lazy ones shortest first, the first success
    wins. *)

(** One item of a character set. *)
Inductive citem : Type :=
| I_chr (x : char)             (* a character *)
| I_rng (lo hi : char)         (* lo-hi *)
| I_space                      (* \s *)
| I_digit.                     (* \d *)

Inductive cset : Type :=
| Any                                   (* . *)
| Cls (neg : bool) (items : list citem). (* [items], [^items] when neg *)

Inductive regex : Type :=
| Eps
| Chr (s : cset)                          (* one character of s *)
| Rep (s : cset) (lo : nat) (greedy : bool) (* s{lo,}, lazy when not greedy *)
| Opt (s : cset)                          (* s? *)
| Seq (r1 r2 : regex)
| Alt (r1 r2 : regex)                     (* r1|r2 *)
| Grp (n : nat) (r : regex)               (* the n-th capturing group *)
| Bol                                     (* ^ without re.MULTILINE *)
| Eol                                     (* $ without re.MULTILINE *)
| Ahead (r : regex).                      (* (?=r) *)

Record flags : Type := Flags { ignorecase : bool; dotall : bool }.

Definition no_flags : flags := Flags false false.

(** The span of each group that took part in the match. *)
Definition caps := list (nat * (nat * nat)).

Fixpoint get_cap (n : nat) (cs : caps) : option (nat * nat) :=
  match cs with
  | [] => None
  | (m, sp) :: cs' => if Nat.eqb m n then Some sp else get_cap n cs'
  end.

Definition set_cap (n : nat) (sp : nat * nat) (cs : caps) : caps := (n, sp) :: cs.

(** The characters from [lo] to [hi]. *)
Definition chars_of_range (lo hi : char) : list char :=
  map (fun i => lo + N.of_nat i) (seq 0 (N.to_nat (hi + 1 - lo))).

Section Regex.

Variable U : unicode.

Definition item_matches (f : flags) (i : citem) (c : char) : bool :=
  match i with
  | I_chr x => (c =? x) || (ignorecase f && ci_eq U x c)
  | I_rng lo hi =>
      ((lo <=? c) && (c <=? hi))
      || (ignorecase f && existsb (fun x => ci_eq U x c) (chars_of_range lo hi))
  | I_space => is_space c
  | I_digit => is_decimal U c
  end.

Definition cset_matches (f : flags) (s : cset) (c : char) : bool :=
  match s with
  | Any => dotall f || negb (c =? NL)
  | Cls neg items => xorb neg (existsb (fun i => item_matches f i c) items)
  end.

(** What remains to be matched after a piece of the pattern: it is given the
    position reached, the text from there on and the groups so far. *)
Definition cont := nat -> str -> caps -> option (nat * caps).

Definition accept : cont := fun pos _ cs => Some (pos, cs).

Fixpoint rep (f : flags) (s : cset) (greedy : bool) (k : cont)
    (lo pos : nat) (rest : str) (cs : caps) {struct rest} : option (nat * caps) :=
  if greedy then
    match
      match rest with
      | c :: rest' =>
          if cset_matches f s c then rep f s greedy k (pred lo) (S pos) rest' cs
          else None
      | [] => None
      end
    with
    | Some m => Some m
    | None => match lo with O => k pos rest cs | S _ => None end
    end
  else
    match match lo with O => k pos rest cs | S _ => None end with
    | Some m => Some m
    | None =>
        match rest with
        | c :: rest' =>
            if cset_matches f s c then rep f s greedy k (pred lo) (S pos) rest' cs
            else None
        | [] => None
        end
    end.

Fixpoint rmatch (f : flags) (r : regex) (k : cont)
    (pos : nat) (rest : str) (cs : caps) {struct r} : option (nat * caps) :=
  match r with
  | Eps => k pos rest cs
  | Chr s =>
      match rest with
      | c :: rest' => if cset_matches f s c then k (S pos) rest' cs else None
      | [] => None
      end
  | Rep s lo greedy => rep f s greedy k lo pos rest cs
  | Opt s =>
      match
        match rest with
        | c :: rest' => if cset_matches f s c then k (S pos) rest' cs else None
        | [] => None
        end
      with
      | Some m => Some m
      | None => k pos rest cs
      end
  | Seq r1 r2 => rmatch f r1 (rmatch f r2 k) pos rest cs
  | Alt r1 r2 =>
      match rmatch f r1 k pos rest cs with
      | Some m => Some m
      | None => rmatch f r2 k pos rest cs
      end
  | Grp n r1 =>
      rmatch f r1 (fun pos' rest' cs' => k pos' rest' (set_cap n (pos, pos') cs'))
        pos rest cs
  | Bol => if Nat.eqb pos 0 then k pos rest cs else None
  | Eol =>
      match rest with
      | [] => k pos rest cs
      | [c] => if c =? NL then k pos rest cs else None
      | _ => None
      end
  | Ahead r1 =>
      match rmatch f r1 accept pos rest cs with
      | Some (_, cs') => k pos rest cs'
      | None => None
      end
  end.

(** A match: where it starts, where it ends, its groups. *)
Record rmatch_obj : Type := Match { m_start : nat; m_end : nat; m_caps : caps }.

(** The match of [r] that starts at [pos], if there is one. *)
Definition match_at (f : flags) (r : regex) (pos : nat) (rest : str) : option rmatch_obj :=
  match rmatch f r accept pos rest [] with
  | Some (e, cs) => Some (Match pos e cs)
  | None => None
  end.

(** The leftmost match at or after [pos]. *)
Fixpoint search_from (f : flags) (r : regex) (pos : nat) (rest : str) : option rmatch_obj :=
  match match_at f r pos rest with
  | Some m => Some m
  | None =>
      match rest with
      | [] => None
      | _ :: rest' => search_from f r (S pos) rest'
      end
  end.

(** [re.search(r, text, f)] and [re.match(r, text, f)] *)
Definition re_search (f : flags) (r : regex) (text : str) : option rmatch_obj :=
  search_from f r 0 text.

Definition re_match (f : flags) (r : regex) (text : str) : option rmatch_obj :=
  match_at f r 0 text.

(** [m.group(n)] of a match in [text]: None when the group took no part
    in the match. *)
Definition group (text : str) (m : rmatch_obj) (n : nat) : option str :=
  match get_cap n (m_caps m) with
  | Some (a, b) => Some (slice text a b)
  | None => None
  end.

(** [m.group(n).strip()]: None has no [strip]. *)
Definition group_strip (text : str) (m : rmatch_obj) (n : nat) : outcome str :=
  match group text m n with
  | Some g => Returns (strip g)
  | None => Raises AttributeError
  end.

(** The final test of a search that resumes at [start] right after an
    empty match there: a match that ends at [start] is refused, and the
    matcher backtracks into its next possibility. *)
Definition accept_after (start : nat) : cont :=
  fun pos _ cs => if Nat.eqb pos start then None else Some (pos, cs).

Definition match_after_empty (f : flags) (r : regex) (pos : nat) (rest : str)
    : option rmatch_obj :=
  match rmatch f r (accept_after pos) pos rest [] with
  | Some (e, cs) => Some (Match pos e cs)
  | None => None
  end.

(** The matches a scan reports that start at [pos]: none, one, or an empty
    one and then one that is not empty. *)
Definition matches_here (f : flags) (r : regex) (pos : nat) (rest : str)
    : list rmatch_obj :=
  match match_at f r pos rest with
  | None => []
  | Some m =>
      if Nat.eqb (m_end m) pos
      then m :: match match_after_empty f r pos rest with
                | Some m' => [m']
                | None => []
                end
      else [m]
  end.

(** The number of characters from [pos] on that the matches cover. *)
Definition covered (pos : nat) (ms : list rmatch_obj) : nat :=
  fold_right (fun m n => Nat.max (m_end m - pos) n) 0%nat ms.

(** [re.finditer(r, text, f)]: the matches from left to right, each search
    resuming where the previous match ended.  [skip] counts the characters
    of the previous match still to pass over. *)
Fixpoint finditer_go (f : flags) (r : regex) (skip pos : nat) (rest : str)
    {struct rest} : list rmatch_obj :=
  match skip with
  | S n =>
      match rest with
      | [] => []
      | _ :: rest' => finditer_go f r n (S pos) rest'
      end
  | O =>
      matches_here f r pos rest ++
      match rest with
      | [] => []
      | _ :: rest' =>
          finditer_go f r (pred (covered pos (matches_here f r pos rest))) (S pos) rest'
      end
  end.

Definition re_finditer (f : flags) (r : regex) (text : str) : list rmatch_obj :=
  finditer_go f r 0 0 text.

(** A replacement template: literal text and group references. *)
Inductive ritem : Type :=
| R_lit (s : str)
| R_grp (n : nat).

(** The template filled in for a match; a group that took no part is
    replaced by the empty string. *)
Definition expand (text : str) (m : rmatch_obj) (repl : list ritem) : str :=
  flat_map (fun i => match i with
                     | R_lit s => s
                     | R_grp n => match group text m n with
                                  | Some g => g
                                  | None => []
                                  end
                     end) repl.

(** [re.sub(r, repl, text)]: every match, found as by [finditer], is
    replaced; the text between matches is copied. *)
Fixpoint sub_go (f : flags) (r : regex) (repl : list ritem) (text : str)
    (skip pos : nat) (rest : str) {struct rest} : str :=
  match skip with
  | S n =>
      match rest with
      | [] => []
      | _ :: rest' => sub_go f r repl text n (S pos) rest'
      end
  | O =>
      flat_map (fun m => expand text m repl) (matches_here f r pos rest) ++
      match rest with
      | [] => []
      | c :: rest' =>
          match covered pos (matches_here f r pos rest) with
          | O => c :: sub_go f r repl text 0 (S pos) rest'
          | S n => sub_go f r repl text n (S pos) rest'
          end
      end
  end.

Definition re_sub (f : flags) (r : regex) (repl : list ritem) (text : str) : str :=
  sub_go f r repl text 0 0 text.

End Regex.

(** Pattern shorthands. *)
Definition one (i : citem) : cset := Cls false [i].
Definition chr (x : char) : regex := Chr (one (I_chr x)).
Definition space : cset := one I_space.   (* \s *)
Definition digit : cset := one I_digit.   (* \d *)
Definition star (s : cset) : regex := Rep s 0 true.   (* s* *)
Definition plus (s : cset) : regex := Rep s 1 true.   (* s+ *)
Definition lazy_star (s : cset) : regex := Rep s 0 false.   (* s*? *)

(** A literal piece of a pattern. *)
Fixpoint lit (s : str) : regex :=
  match s with
  | [] => Eps
  | x :: s' => Seq (chr x) (lit s')
  end.

Fixpoint seqs (rs : list regex) : regex :=
  match rs with
  | [] => Eps
  | [r] => r
  | r :: rs' => Seq r (seqs rs')
  end.

Fixpoint alts (r : regex) (rs : list regex) : regex :=
  match rs with
  | [] => r
  | r' :: rs' => Alt r (alts r' rs')
  end.

(** ** The program: [extract_paper.py] *)

Definition isSome {A : Type} (o : option A) : bool :=
  match o with Some _ => true | None => false end.

(** *** [clean_text] *)

(** r"\n\s*\d+\s*\n" *)
Definition re_number_line : regex :=
  seqs [chr NL; star space; plus digit; star space; chr NL].

(** r"\n\s*Page \d+.*?\n" *)
Definition re_page_line : regex :=
  seqs [chr NL; star space; lit (py "Page "); plus digit; lazy_star Any; chr NL].

(** r"([a-z])-\n([a-z])" *)
Definition re_hyphen_break : regex :=
  seqs [Grp 1 (Chr (one (I_rng 97 122))); chr 45; chr NL;
        Grp 2 (Chr (one (I_rng 97 122)))].

(** r"\n\s*\n" *)
Definition re_blank_lines : regex := seqs [chr NL; star space; chr NL].

(** r"[ \t]+" *)
Definition re_blanks : regex := plus (Cls false [I_chr 32; I_chr 9]).

(** The last statement of [clean_text]:
    ["\n".join([line.strip() for line in text.splitlines() if line.strip()])] *)
Definition join_stripped_lines (text : str) : str :=
  join [NL]
    (map strip (filter (fun line => negb (is_empty (strip line))) (splitlines text))).

Definition clean_text (U : unicode) (text : str) : str :=
  if is_empty text then []
  else
    let text := re_sub U no_flags re_number_line [R_lit [NL]] text in
    let text := re_sub U no_flags re_page_line [R_lit [NL]] text in
    let text := re_sub U no_flags re_hyphen_break [R_grp 1; R_grp 2] text in
    let text := re_sub U no_flags re_blank_lines [R_lit [NL; NL]] text in
    let text := re_sub U no_flags re_blanks [R_lit [32]] text in
    join_stripped_lines text.

(** *** [extract_paper_metadata] *)

(** The dict [metadata]: keys in insertion order. *)
Definition dict := list (string * str).

Fixpoint dict_set (k : string) (v : str) (d : dict) : dict :=
  match d with
  | [] => [(k, v)]
  | (k', v') :: d' =>
      if String.eqb k' k then (k, v) :: d' else (k', v') :: dict_set k v d'
  end.

Fixpoint dict_get (k : string) (d : dict) : option str :=
  match d with
  | [] => None
  | (k', v) :: d' => if String.eqb k' k then Some v else dict_get k d'
  end.

(** r"^\d+\.|abstract|introduction|arxiv" *)
Definition re_not_title : regex :=
  alts (seqs [Bol; plus digit; chr 46])
       [lit (py "abstract"); lit (py "introduction"); lit (py "arxiv")].

(** The lookahead both the abstract and the keywords pattern end with, but
    for the last alternative of the former. *)
Definition blank_line_ahead : regex := seqs [chr NL; star space; chr NL].

(** r"abstract\s*[:\-]?\s*(.*?)(?=\n\s*\n|\nintroduction|\n1\.|\nkeywords)" *)
Definition re_abstract : regex :=
  seqs [lit (py "abstract"); star space; Opt (Cls false [I_chr 58; I_chr 45]);
        star space; Grp 1 (lazy_star Any);
        Ahead (alts blank_line_ahead
                 [lit (py "\nintroduction"); lit (py "\n1."); lit (py "\nkeywords")])].

(** r"keywords?\s*[:\-]?\s*(.*?)(?=\n\s*\n|\nintroduction|\n1\.)" *)
Definition re_keywords : regex :=
  seqs [lit (py "keyword"); Opt (one (I_chr 115)); star space;
        Opt (Cls false [I_chr 58; I_chr 45]);
        star space; Grp 1 (lazy_star Any);
        Ahead (alts blank_line_ahead [lit (py "\nintroduction"); lit (py "\n1.")])].

(** [re.IGNORECASE | re.DOTALL] *)
Definition icase_dotall : flags := Flags true true.

(** The condition under which the loop appends [line] to
    [title_candidates]. *)
Definition is_title_candidate (U : unicode) (line : str) : bool :=
  (20 <? List.length line)%nat && (List.length line <? 200)%nat
  && negb (isSome (re_search U no_flags re_not_title (lower U line))).

Definition extract_paper_metadata (U : unicode) (text : str) : outcome dict :=
  let metadata : dict := [] in
  let lines := firstn 20 (split [NL] text) in
  let title_candidates := filter (is_title_candidate U) lines in
  let metadata :=
    match title_candidates with
    | first :: _ => dict_set "title" first metadata
    | [] => metadata
    end in
  metadata <-
    match re_search U icase_dotall re_abstract text with
    | Some abstract_match =>
        abstract <- group_strip text abstract_match 1 ;;
        Returns (dict_set "abstract" abstract metadata)
    | None => Returns metadata
    end ;;
  metadata <-
    match re_search U icase_dotall re_keywords text with
    | Some keywords_match =>
        keywords <- group_strip text keywords_match 1 ;;
        Returns (dict_set "keywords" keywords metadata)
    | None => Returns metadata
    end ;;
  Returns metadata.

(** *** [split_into_sections] *)

Record section : Type := Section_ { title : str; content : str }.

(** [re.IGNORECASE] *)
Definition icase : flags := Flags true false.

(** r"\n\s*(\d+\.?\s+[A-Z][^.\n]*" r")\n" *)
Definition re_numbered_heading : regex :=
  seqs [chr NL; star space;
        Grp 1 (seqs [plus digit; Opt (one (I_chr 46)); plus space;
                     Chr (one (I_rng 65 90));
                     star (Cls true [I_chr 46; I_chr NL])]);
        chr NL].

(** r"\n\s*([A-Z][A-Z\s]{2,})\n" *)
Definition re_caps_heading : regex :=
  seqs [chr NL; star space;
        Grp 1 (Seq (Chr (one (I_rng 65 90)))
                   (Rep (Cls false [I_rng 65 90; I_space]) 2 true));
        chr NL].

(** r"\n\s*(Abstract|Introduction|Related Work|Methodology|Experiments|Results|Conclusion|References)\s*\n" *)
Definition re_named_heading : regex :=
  seqs [chr NL; star space;
        Grp 1 (alts (lit (py "Abstract"))
                 [lit (py "Introduction"); lit (py "Related Work");
                  lit (py "Methodology"); lit (py "Experiments");
                  lit (py "Results"); lit (py "Conclusion");
                  lit (py "References")]);
        star space; chr NL].

Definition section_patterns : list regex :=
  [re_numbered_heading; re_caps_heading; re_named_heading].

(** The title of the text before the first heading: the two characters of
    the Chinese word for "start", U+958B U+59CB. *)
Definition start_title : str := [38283; 22987].

(** [list.sort(key=lambda x: x[0])]: stable, by position. *)
Fixpoint insert_break (b : nat * str) (bs : list (nat * str)) : list (nat * str) :=
  match bs with
  | [] => [b]
  | b' :: bs' =>
      if (fst b <=? fst b')%nat then b :: bs else b' :: insert_break b bs'
  end.

Fixpoint sort_breaks (bs : list (nat * str)) : list (nat * str) :=
  match bs with
  | [] => []
  | b :: bs' => insert_break b (sort_breaks bs')
  end.

(** The loop [for match in matches], appending to [section_breaks]. *)
Fixpoint add_breaks (text : str) (matches : list rmatch_obj)
    (section_breaks : list (nat * str)) : outcome (list (nat * str)) :=
  match matches with
  | [] => Returns section_breaks
  | m :: more =>
      section_title <- group_strip text m 1 ;;
      add_breaks text more
        (if (List.length section_title <? 100)%nat
         then section_breaks ++ [(m_start m, section_title)]
         else section_breaks)
  end.

(** The loop [for pattern in section_patterns]. *)
Fixpoint scan_patterns (U : unicode) (text : str) (patterns : list regex)
    (section_breaks : list (nat * str)) : outcome (list (nat * str)) :=
  match patterns with
  | [] => Returns section_breaks
  | pattern :: more =>
      section_breaks <-
        add_breaks text (re_finditer U icase pattern text) section_breaks ;;
      scan_patterns U text more section_breaks
  end.

(** [section_breaks] once sorted. *)
Definition section_breaks (U : unicode) (text : str) : outcome (list (nat * str)) :=
  found <- scan_patterns U text section_patterns [(0%nat, start_title)] ;;
  Returns (sort_breaks found).

(** The loop [for i in range(len(section_breaks) - 1)]. *)
Definition inner_sections (text : str) (breaks : list (nat * str)) : list section :=
  flat_map
    (fun i =>
       let start_pos := fst (nth i breaks (0%nat, [])) in
       let end_pos := fst (nth (i + 1) breaks (0%nat, [])) in
       let section_title := snd (nth i breaks (0%nat, [])) in
       let section_content := strip (slice text start_pos end_pos) in
       if (100 <? List.length section_content)%nat
       then [Section_ section_title section_content] else [])
    (seq 0 (List.length breaks - 1)).

(** The statement [if section_breaks:] and its body. *)
Definition last_section (text : str) (breaks : list (nat * str)) : list section :=
  match breaks with
  | [] => []
  | _ :: _ =>
      let final := last breaks (0%nat, []) in
      let last_content := strip (skipn (fst final) text) in
      if (100 <? List.length last_content)%nat
      then [Section_ (snd final) last_content] else []
  end.

Definition split_into_sections (U : unicode) (text : str) : outcome (list section) :=
  breaks <- section_breaks U text ;;
  Returns (inner_sections text breaks ++ last_section text breaks).

(** *** [split_into_paragraphs] *)

(** r"^\d+$", r"^Page \d+" and r"^[\d\s\-\.\(\)]+$" *)
Definition re_only_digits : regex := seqs [Bol; plus digit; Eol].

Definition re_page_prefix : regex := seqs [Bol; lit (py "Page "); plus digit].

Definition decoration : cset :=
  Cls false [I_digit; I_space; I_chr 45; I_chr 46; I_chr 40; I_chr 41].

Definition re_decoration : regex := seqs [Bol; plus decoration; Eol].

(** The body of the loop over [paragraphs]. *)
Fixpoint process_paragraphs (U : unicode) (min_length : Z) (paragraphs : list str)
    : list str :=
  match paragraphs with
  | [] => []
  | para :: more =>
      let para := strip para in
      if (Z.of_nat (List.length para) <? min_length)%Z then
        process_paragraphs U min_length more
      else if isSome (re_match U no_flags re_only_digits para)
              || isSome (re_match U no_flags re_page_prefix para) then
        process_paragraphs U min_length more
      else if isSome (re_match U no_flags re_decoration para) then
        process_paragraphs U min_length more
      else para :: process_paragraphs U min_length more
  end.

Definition split_into_paragraphs (U : unicode) (text : str) (min_length : Z) : list str :=
  process_paragraphs U min_length (split [NL; NL] text).

(** The default of [min_length]. *)
Definition default_min_length : Z := 50.

(** *** [process_single_pdf]

    The text [extract_text_from_pdf] returned, the file's name and the
    clock's reading are arguments, and so is what [save_processed_data]
    does with the results: it writes the two files and returns, or it
    raises, and then [process_single_pdf] raises before it returns.  What
    is printed is left out. *)

Record statistics : Type := Statistics {
  total_text_length : nat;
  section_count : nat;
  paragraph_count : nat
}.

Record processed_data : Type := Processed {
  source_file : str;
  processed_time : str;
  metadata : dict;
  sections : list section;
  paragraphs : list str;
  stats : statistics
}.

(** [pdf_path.name.split('.')[0]], the name under which the results are
    written; [main.process_paper_flow] computes it again to find them. *)
Definition filename_base (name : str) : str := nth 0 (split [46] name) [].

(** What [save_processed_data(data, output_path)] does: [output_path] is
    given by its last part, the directory is fixed. *)
Definition saver : Type := processed_data -> str -> outcome unit.

Definition process_single_pdf (U : unicode) (save_processed_data : saver)
    (name now raw_text : str) : outcome (option processed_data) :=
  if is_empty raw_text then Returns None
  else
    let cleaned_text := clean_text U raw_text in
    metadata <- extract_paper_metadata U cleaned_text ;;
    sections <- split_into_sections U cleaned_text ;;
    let paragraphs := split_into_paragraphs U cleaned_text default_min_length in
    let processed_data :=
      Processed name now metadata sections paragraphs
        (Statistics (List.length cleaned_text) (List.length sections)
           (List.length paragraphs)) in
    _ <- save_processed_data processed_data (filename_base name) ;;
    Returns (Some processed_data).

(** *** [extract_text_from_pdf]

    What [pypdf] finds in the file is an argument: [PdfReader] opens the
    file and lists its pages, or raises; [extract_text] gives the text of a
    page, or raises.  The progress lines printed are left out. *)

Inductive page : Type :=
| PageText (page_text : str)   (* page.extract_text() returns page_text *)
| PageRaises.                  (* page.extract_text() raises *)

Inductive pdf : Type :=
| Pdf (pages : list page)      (* PdfReader(path).pages *)
| Unreadable.                  (* PdfReader(path) raises *)

(** The loop [for i, page in enumerate(reader.pages)] from the [text] so
    far; None when a page raises. *)
Fixpoint read_pages (pages : list page) (text : str) : option str :=
  match pages with
  | [] => Some text
  | PageText page_text :: more =>
      read_pages more
        (if is_empty page_text then text else text ++ page_text ++ [NL])
  | PageRaises :: _ => None
  end.

(** The [try] statement: whatever is raised, the function returns the
    empty text. *)
Definition extract_text_from_pdf (f : pdf) : str :=
  match f with
  | Pdf pages =>
      match read_pages pages [] with
      | Some text => text
      | None => []
      end
  | Unreadable => []
  end.

(** [process_single_pdf] from the file on. *)
Definition process_pdf_file (U : unicode) (save_processed_data : saver)
    (name now : str) (f : pdf) : outcome (option processed_data) :=
  process_single_pdf U save_processed_data name now (extract_text_from_pdf f).

(** *** [process_all_pdfs]

    A file of the raw directory: its name, what [pypdf] finds in it, the
    clock's reading when it is processed, and whether
    [save_processed_data] writes its results or raises. *)
Record raw_file : Type := RawFile {
  file_name : str;
  file_pdf : pdf;
  file_time : str;
  file_saves : bool
}.

Record file_statistic : Type := FileStatistic {
  stat_filename : str;
  stat_sections : nat;
  stat_paragraphs : nat;
  stat_text_length : nat
}.

Record summary : Type := Summary {
  total_files : nat;
  successful_files : nat;
  file_statistics : list file_statistic
}.

(** [save_processed_data] on the results of the file [f]. *)
Definition file_save (f : raw_file) : saver :=
  fun _ _ => if file_saves f then Returns tt else Raises OSError.

(** The loop [for pdf_path in pdf_files]: a file adds its result to
    [results] unless [process_single_pdf] returns None or raises; it raises
    when the core does or when the results cannot be written. *)
Fixpoint collect_results (U : unicode) (pdf_files : list raw_file)
    : list processed_data :=
  match pdf_files with
  | [] => []
  | f :: more =>
      match process_pdf_file U (file_save f) (file_name f) (file_time f) (file_pdf f) with
      | Returns (Some result) => result :: collect_results U more
      | Returns None => collect_results U more
      | Raises _ => collect_results U more
      end
  end.

(** The summary written; None when the raw directory holds no PDF file and
    nothing is written. *)
Definition process_all_pdfs (U : unicode) (pdf_files : list raw_file) : option summary :=
  match pdf_files with
  | [] => None
  | _ :: _ =>
      let results := collect_results U pdf_files in
      Some (Summary (List.length pdf_files) (List.length results)
              (map (fun r => FileStatistic (source_file r)
                               (section_count (stats r))
                               (paragraph_count (stats r))
                               (total_text_length (stats r)))
                   results))
  end.

(** *** [prompt_generator.convert_to_prompt]: the title of a section *)

(** [s.split()]: the words of [s], the runs of characters between white
    space. *)
Fixpoint ws_split (s : str) : list str :=
  match s with
  | [] => []
  | c :: s' =>
      if is_space c then ws_split s'
      else
        match s' with
        | [] => [[c]]
        | d :: _ =>
            if is_space d then [c] :: ws_split s'
            else match ws_split s' with
                 | w :: ws => (c :: w) :: ws
                 | [] => [[c]]
                 end
        end
  end.

(** [' '.join(title.split())] *)
Definition section_title_cleaned (title : str) : str := join [32] (ws_split title).

(** ** The Basic Latin block

    On the characters below 128 the Unicode tables are these: the decimal
    digits are 0 to 9, [str.lower] maps A-Z to a-z, and two characters are
    equal under [re.IGNORECASE] when their lower cases are. *)

Definition ascii_lower (c : char) : char :=
  if (65 <=? c) && (c <=? 90) then c + 32 else c.

Definition is_ascii (c : char) : bool := c <? 128.

Definition basic_latin : unicode :=
  Unicode (fun c => (48 <=? c) && (c <=? 57))
          (map ascii_lower)
          (fun x c => ascii_lower x =? ascii_lower c).

(** [U] is exact on the Basic Latin block. *)
Definition basic_latin_exact (U : unicode) : Prop :=
  (forall c, is_ascii c = true -> is_decimal U c = is_decimal basic_latin c)
  /\ (forall s, forallb is_ascii s = true -> lower U s = lower basic_latin s)
  /\ (forall x c, is_ascii x = true -> is_ascii c = true ->
        ci_eq U x c = ci_eq basic_latin x c).

(** [U] with the Basic Latin block computed. *)
Definition on_basic_latin (U : unicode) : unicode :=
  Unicode
    (fun c => if is_ascii c then is_decimal basic_latin c else is_decimal U c)
    (fun s => if forallb is_ascii s then lower basic_latin s else lower U s)
    (fun x c => if is_ascii x && is_ascii c then ci_eq basic_latin x c
                else ci_eq U x c).

(** ** The notions the specification speaks of *)

(** [out] holds elements of [l] in the order [l] has them. *)
Inductive subseq {A : Type} : list A -> list A -> Prop :=
| subseq_nil : subseq [] []
| subseq_skip (x : A) (out l : list A) : subseq out l -> subseq out (x :: l)
| subseq_keep (x : A) (out l : list A) : subseq out l -> subseq (x :: out) (x :: l).

(** A string that is not empty and made only of characters [p] holds of. *)
Definition made_of (p : char -> bool) (s : str) : bool :=
  negb (is_empty s) && forallb p s.

(** A block of digits only. *)
Definition digits_only (U : unicode) (s : str) : bool := made_of (is_decimal U) s.

(** A block that begins with "Page", a space and a digit. *)
Definition page_marker (U : unicode) (s : str) : bool :=
  starts_with (py "Page ") s
  && match skipn 5 s with
     | d :: _ => is_decimal U d
     | [] => false
     end.

(** Digits, white space, hyphens, periods and parentheses. *)
Definition is_decoration_char (U : unicode) (c : char) : bool :=
  is_decimal U c || is_space c || (c =? 45) || (c =? 46) || (c =? 40) || (c =? 41).

(** A decoration block. *)
Definition decoration_only (U : unicode) (s : str) : bool :=
  made_of (is_decoration_char U) s.

(** Digits, none or more, then a period. *)
Fixpoint digits_then_period (U : unicode) (s : str) : bool :=
  match s with
  | [] => false
  | c :: s' => (c =? 46) || (is_decimal U c && digits_then_period U s')
  end.

(** A leading numbered-list marker: one digit or more, then a period. *)
Definition list_marker (U : unicode) (s : str) : bool :=
  match s with
  | [] => false
  | c :: s' => is_decimal U c && digits_then_period U s'
  end.

(** The line signals "not a title": lower-cased, it starts with a
    numbered-list marker or holds one of the three words somewhere. *)
Definition not_a_title (U : unicode) (line : str) : bool :=
  list_marker U (lower U line)
  || contains (py "abstract") (lower U line)
  || contains (py "introduction") (lower U line)
  || contains (py "arxiv") (lower U line).

(** A title candidate: longer than 20 characters, shorter than 200, and
    not signalling "not a title". *)
Definition title_candidate (U : unicode) (line : str) : bool :=
  (20 <? List.length line)%nat && (List.length line <? 200)%nat
  && negb (not_a_title U line).

(** A title candidate as the title-selection property words it: of length
    20 to 199. *)
Definition title_candidate_20_to_199 (U : unicode) (line : str) : bool :=
  (20 <=? List.length line)%nat && (List.length line <=? 199)%nat
  && negb (not_a_title U line).

(** The lines [extract_paper_metadata] looks at. *)
Definition first_20_lines (text : str) : list str := firstn 20 (split [NL] text).

(** The candidate sections of a sorted list of boundaries: every boundary
    with the text from it up to the next boundary, the last one with the
    text from it to the end; the content is trimmed. *)
Fixpoint candidate_sections (text : str) (breaks : list (nat * str)) : list section :=
  match breaks with
  | [] => []
  | (start_pos, heading) :: more =>
      match more with
      | [] => [Section_ heading (strip (skipn start_pos text))]
      | (next_pos, _) :: _ =>
          Section_ heading (strip (slice text start_pos next_pos))
          :: candidate_sections text more
      end
  end.

(** The input of the specification's first scenario, and the two section
    contents it yields. *)
Definition scenario_1 : str :=
  py "1. Introduction\nThis is the intro text repeated to exceed one hundred characters so it is not filtered out by the length check.\n\n2. Conclusion\nThis is the conclusion text repeated to exceed one hundred characters as well for the filter.\n".

Definition scenario_1_introduction : str :=
  py "1. Introduction\nThis is the intro text repeated to exceed one hundred characters so it is not filtered out by the length check.".

Definition scenario_1_conclusion : str :=
  py "2. Conclusion\nThis is the conclusion text repeated to exceed one hundred characters as well for the filter.".

(** The document [process_single_pdf] assembles from a text, once the
    metadata and the sections are there. *)
Definition assembled (U : unicode) (name now raw_text : str) (meta : dict)
    (secs : list section) : processed_data :=
  Processed name now meta secs
    (split_into_paragraphs U (clean_text U raw_text) default_min_length)
    (Statistics (List.length (clean_text U raw_text)) (List.length secs)
       (List.length
          (split_into_paragraphs U (clean_text U raw_text) default_min_length))).

(** A [save_processed_data] that writes whatever it is given. *)
Definition saves_all : saver := fun _ _ => Returns tt.

(** The first character of [s], if any, does not satisfy [p]. *)
Definition head_not (p : char -> bool) (s : str) : Prop :=
  match s with
  | [] => True
  | c :: _ => p c = false
  end.

(** No character of [s] ends a line. *)
Definition one_line (s : str) : Prop := forall c, In c s -> is_linebreak c = false.

(** Group [n] took part in a match with groups [cs]. *)
Definition has_group (n : nat) (cs : caps) : Prop := get_cap n cs <> None.

(** Whenever [k] succeeds from groups that satisfy [P], the groups it
    ends with satisfy [Q]. *)
Definition cont_maps (P Q : caps -> Prop) (k : cont) : Prop :=
  forall pos rest cs e cs', P cs -> k pos rest cs = Some (e, cs') -> Q cs'.

(** In every match of [r], whatever the final test, group [n] takes
    part. *)
Definition always_groups (U : unicode) (f : flags) (r : regex) (n : nat) : Prop :=
  forall k, cont_maps (has_group n) (has_group n) k ->
            cont_maps (fun _ => True) (has_group n) (rmatch U f r k).

(** A space or a tab. *)
Definition is_blank (c : char) : bool := (c =? 32) || (c =? 9).

(** The number of blanks [s] starts with. *)
Fixpoint blank_run (s : str) : nat :=
  match s with
  | [] => O
  | c :: s' => if is_blank c then S (blank_run s') else O
  end.

(** Every run of blanks made one space; [in_run] tells that the blanks at
    the start continue a run. *)
Fixpoint squeeze (in_run : bool) (s : str) : str :=
  match s with
  | [] => []
  | c :: s' =>
      if is_blank c then (if in_run then squeeze true s' else 32 :: squeeze true s')
      else c :: squeeze false s'
  end.

(** No tab, and no two spaces in a row. *)
Fixpoint single_spaced (s : str) : bool :=
  match s with
  | [] => true
  | c :: s' =>
      negb (c =? 9)
      && negb ((c =? 32) && match s' with d :: _ => d =? 32 | [] => false end)
      && single_spaced s'
  end.

(** Every newline is followed by a character that is not white space. *)
Fixpoint text_after_newlines (s : str) : bool :=
  match s with
  | [] => true
  | c :: s' =>
      (negb (c =? NL) || match s' with d :: _ => negb (is_space d) | [] => false end)
      && text_after_newlines s'
  end.

(** [l] is a piece of [s]. *)
Definition infix (l s : str) : Prop := exists a b, s = a ++ l ++ b.

(** Boundaries in the order of the text: positions never decrease. *)
Fixpoint ascending (bs : list (nat * str)) : Prop :=
  match bs with
  | [] => True
  | b :: bs' =>
      match bs' with
      | [] => True
      | b' :: _ => (fst b <= fst b')%nat
      end /\ ascending bs'
  end.

(** A trimmed block the paragraph segmenter is to keep: long enough and
    none of the three kinds of noise. *)
Definition paragraph_kept (U : unicode) (min_length : Z) (block : str) : bool :=
  negb (Z.of_nat (List.length block) <? min_length)%Z
  && negb (digits_only U block)
  && negb (page_marker U block)
  && negb (decoration_only U block).

(** What the title of a section boundary is: shorter than 100
    characters, trimmed, and the synthetic start title or a piece of the
    text. *)
Definition heading_like (text t : str) : Prop :=
  (List.length t < 100)%nat /\ strip t = t /\ (t = start_title \/ infix t text).

(** What a page adds to the text of a file: its text and a newline, or
    nothing when it has no text. *)
Definition page_lines (p : page) : str :=
  match p with
  | PageText page_text => if is_empty page_text then [] else page_text ++ [NL]
  | PageRaises => []
  end.

(** A word: not empty, and without white space. *)
Definition is_word (w : str) : Prop :=
  w <> [] /\ forallb (fun c => negb (is_space c)) w = true.

(** A file whose text is not empty and whose results are written. *)
Definition file_succeeds (f : raw_file) : bool :=
  negb (is_empty (extract_text_from_pdf (file_pdf f))) && file_saves f.

(** The least number of characters a match of [r] takes. *)
Fixpoint min_len (r : regex) : nat :=
  match r with
  | Eps | Opt _ | Bol | Eol | Ahead _ => 0
  | Chr _ => 1
  | Rep _ lo _ => lo
  | Seq r1 r2 => min_len r1 + min_len r2
  | Alt r1 r2 => Nat.min (min_len r1) (min_len r2)
  | Grp _ r1 => min_len r1
  end.

(** Is [p] a prefix of [s] when case is ignored. *)
Fixpoint starts_with_ignoring_case (U : unicode) (p s : str) : bool :=
  match p, s with
  | [], _ => true
  | x :: p', c :: s' =>
      ((c =? x) || ci_eq U x c) && starts_with_ignoring_case U p' s'
  | _ :: _, [] => false
  end.

(** The newline has no other case: under [re.IGNORECASE] it matches only
    itself. *)
Definition newline_is_caseless (U : unicode) : Prop :=
  forall c, ci_eq U NL c = true -> c = NL.

(** The number of characters of the lines [ls], a line boundary after each
    counted. *)
Definition lines_length (ls : list str) : nat :=
  list_sum (map (fun l => S (List.length l)) ls).

(** White space has no other case and is no digit: a white-space character
    matches, and is matched by, only itself under [re.IGNORECASE], and [\d]
    does not match it. *)
Definition white_space_is_plain (U : unicode) : Prop :=
  (forall c, is_space c = true -> is_decimal U c = false)
  /\ (forall x c, ci_eq U x c = true ->
                  is_space x = true \/ is_space c = true -> x = c).

(** No group is set inside [r]. *)
Fixpoint group_free (r : regex) : bool :=
  match r with
  | Grp _ _ => false
  | Seq r1 r2 | Alt r1 r2 => group_free r1 && group_free r2
  | Ahead r1 => group_free r1
  | Eps | Chr _ | Rep _ _ _ | Opt _ | Bol | Eol => true
  end.

(** A final test that leaves the groups as they are. *)
Definition transparent (k : cont) : Prop :=
  forall pos rest cs res, k pos rest cs = Some res -> snd res = cs.

(** Every match of [g] starts with a character that is not white space. *)
Definition starts_with_text (U : unicode) (f : flags) (g : regex) : Prop :=
  forall k pos rest cs res,
    rmatch U f g k pos rest cs = Some res ->
    exists c rest', rest = c :: rest' /\ is_space c = false.

(** At [start] the text has a newline, white space, and then a text that
    does not begin with white space and of which [t] is the trimmed
    beginning. *)
Definition heading_at (text : str) (start : nat) (t : str) : Prop :=
  exists pre ws body ng,
    text = pre ++ NL :: ws ++ body
    /\ List.length pre = start
    /\ forallb is_space ws = true
    /\ head_not is_space body
    /\ t = strip (firstn ng body).

(** A pattern for headings: a newline, white space, group 1, which holds
    no group and starts with text, and a rest without groups. *)
Definition heading_pattern (U : unicode) (f : flags) (pattern : regex) : Prop :=
  exists g tail,
    pattern = Seq (chr NL) (Seq (star space) (Seq (Grp 1 g) tail))
    /\ group_free g = true /\ group_free tail = true
    /\ starts_with_text U f g.

(** The match [m] starts at a newline of the text, and after white space
    comes a text that does not begin with white space, of which group 1
    is the beginning. *)
Definition heads (text : str) (m : rmatch_obj) : Prop :=
  exists pre ws body ng,
    text = pre ++ NL :: ws ++ body
    /\ List.length pre = m_start m
    /\ forallb is_space ws = true
    /\ head_not is_space body
    /\ group text m 1 = Some (firstn ng body).

(** A boundary is the synthetic one or comes from a heading. *)
Definition heading_break (text : str) (b : nat * str) : Prop :=
  snd b = start_title \/ heading_at text (fst b) (snd b).

(** The pieces into which the boundaries cut the text: from each boundary
    to the next, and from the last one to the end. *)
Fixpoint section_pieces (text : str) (breaks : list (nat * str)) : list str :=
  match breaks with
  | [] => []
  | (start_pos, _) :: more =>
      match more with
      | [] => [skipn start_pos text]
      | (next_pos, _) :: _ =>
          slice text start_pos next_pos :: section_pieces text more
      end
  end.

(** ** Facts about the [str] methods *)

Lemma dropwhile_head_not (p : char -> bool) (s : str) :
  head_not p (dropwhile p s).
Proof.
  induction s as [|c s IH]; simpl; [exact I|].
  destruct (p c) eqn:E; [exact IH | exact E].
Qed.

Lemma dropwhile_fixed (p : char -> bool) (s : str) :
  head_not p s -> dropwhile p s = s.
Proof.
  destruct s as [|c s]; simpl; [reflexivity|].
  intros ->. reflexivity.
Qed.

Lemma dropwhile_In (p : char -> bool) (s : str) (c : char) :
  In c (dropwhile p s) -> In c s.
Proof.
  induction s as [|d s IH]; simpl; [tauto|].
  destruct (p d); simpl; tauto.
Qed.

Lemma dropwhile_keeps_last (p : char -> bool) (v : str) (c : char) :
  p c = false -> exists u, dropwhile p (v ++ [c]) = u ++ [c].
Proof.
  intros Hc. induction v as [|d v IH]; simpl.
  - rewrite Hc. exists []. reflexivity.
  - destruct (p d).
    + exact IH.
    + exists (d :: v). reflexivity.
Qed.

Lemma strip_In (s : str) (c : char) : In c (strip s) -> In c s.
Proof.
  unfold strip, rstrip, lstrip. intros H.
  apply in_rev in H. apply dropwhile_In in H. apply in_rev in H.
  apply dropwhile_In in H. exact H.
Qed.

Lemma strip_head (s : str) : head_not is_space (strip s).
Proof.
  unfold strip, rstrip.
  pose proof (dropwhile_head_not is_space s) as Hh. fold (lstrip s) in Hh.
  destruct (lstrip s) as [|c t]; simpl; [exact I|].
  simpl in Hh.
  destruct (dropwhile_keeps_last is_space (rev t) c Hh) as [u Hu].
  rewrite Hu, rev_app_distr. simpl. exact Hh.
Qed.

Lemma strip_last (s : str) : head_not is_space (rev (strip s)).
Proof.
  unfold strip, rstrip. rewrite rev_involutive. apply dropwhile_head_not.
Qed.

(** A string that neither starts nor ends with white space is its own
    [strip]. *)
Lemma strip_fixed (s : str) :
  head_not is_space s -> head_not is_space (rev s) -> strip s = s.
Proof.
  intros H1 H2. unfold strip, rstrip, lstrip.
  rewrite (dropwhile_fixed _ _ H1), (dropwhile_fixed _ _ H2).
  apply rev_involutive.
Qed.

Lemma strip_strip (s : str) : strip (strip s) = strip s.
Proof. apply strip_fixed; [apply strip_head | apply strip_last]. Qed.

Lemma splitlines_one_line_upto (n : nat) (s : str) :
  (List.length s <= n)%nat -> Forall one_line (splitlines s).
Proof.
  revert s. induction n as [|n IH]; intros s Hn.
  - destruct s; [constructor | simpl in Hn; lia].
  - destruct s as [|c s]; simpl; [constructor|]. simpl in Hn.
    destruct (is_linebreak c) eqn:Ec.
    + constructor; [intros x []|].
      destruct s as [|d s']; [constructor|]. simpl in Hn.
      destruct ((c =? CR) && (d =? NL)); apply IH; simpl; lia.
    + assert (Hs : Forall one_line (splitlines s)) by (apply IH; lia).
      destruct (splitlines s) as [|l ls].
      * constructor; [|constructor]. intros x [<-|[]]. exact Ec.
      * inversion Hs as [|? ? Hl Hls]; subst. constructor; [|exact Hls].
        intros x [<-|Hx]; [exact Ec | apply Hl, Hx].
Qed.

Lemma splitlines_one_line (s : str) : Forall one_line (splitlines s).
Proof. apply (splitlines_one_line_upto (List.length s)). lia. Qed.

Lemma splitlines_before_newline (p rest : str) :
  one_line p -> splitlines (p ++ NL :: rest) = p :: splitlines rest.
Proof.
  intros Hp. induction p as [|c p IH]; simpl.
  - destruct rest; reflexivity.
  - rewrite (Hp c (or_introl eq_refl)).
    rewrite IH; [reflexivity|]. intros x Hx. apply Hp. right. exact Hx.
Qed.

Lemma splitlines_single (p : str) :
  one_line p -> p <> [] -> splitlines p = [p].
Proof.
  intros Hp Hne. induction p as [|c p IH]; [congruence|]. simpl.
  rewrite (Hp c (or_introl eq_refl)).
  destruct p as [|d p]; [reflexivity|].
  rewrite IH; [reflexivity | | discriminate].
  intros x Hx. apply Hp. right. exact Hx.
Qed.

Lemma splitlines_join (ls : list str) :
  Forall (fun l => one_line l /\ l <> []) ls -> splitlines (join [NL] ls) = ls.
Proof.
  induction 1 as [|l ls [Hl Hne] Hls IH]; [reflexivity|].
  destruct ls as [|l' ls'].
  - simpl. apply splitlines_single; assumption.
  - change (join [NL] (l :: l' :: ls')) with (l ++ NL :: join [NL] (l' :: ls')).
    rewrite splitlines_before_newline by exact Hl. rewrite IH. reflexivity.
Qed.

(** Text without two newlines in a row is a single block for
    [split('\n\n')]. *)
Lemma split_without_separator (sep s : str) :
  contains sep s = false -> split sep s = [s].
Proof.
  unfold split. induction s as [|c s IH]; intros H; [reflexivity|].
  simpl in H. apply orb_false_iff in H. destruct H as [H1 H2].
  cbn [split_go]. cbn [starts_with] in H1 |- *.
  destruct sep as [|x sep]; [discriminate|]. rewrite H1.
  rewrite (IH H2). reflexivity.
Qed.

Lemma contains_double_newline_free (s : str) :
  ~ In NL s -> contains [NL; NL] s = false.
Proof.
  induction s as [|c s IH]; intros H; [reflexivity|].
  cbn [contains starts_with].
  destruct (N.eqb_spec NL c) as [E|E].
  - exfalso. apply H. left. symmetry. exact E.
  - simpl. apply IH. intros Hin. apply H. right. exact Hin.
Qed.

Lemma contains_double_newline_app (p r : str) :
  ~ In NL p -> head_not (N.eqb NL) r -> contains [NL; NL] r = false ->
  contains [NL; NL] (p ++ NL :: r) = false.
Proof.
  intros Hp Hr Hc. induction p as [|c p IH].
  - cbn [app contains starts_with]. rewrite Hc, N.eqb_refl.
    destruct r as [|d r]; [reflexivity|]. cbn [head_not] in Hr.
    rewrite Hr. reflexivity.
  - cbn [app contains starts_with].
    destruct (N.eqb_spec NL c) as [E|E].
    + exfalso. apply Hp. left. symmetry. exact E.
    + simpl. apply IH. intros Hin. apply Hp. right. exact Hin.
Qed.

(** Lines that are not empty and hold no newline, joined by newlines,
    never put two newlines in a row. *)
Lemma join_lines_no_double_newline (ls : list str) :
  Forall (fun l => ~ In NL l /\ l <> []) ls ->
  head_not (N.eqb NL) (join [NL] ls) /\ contains [NL; NL] (join [NL] ls) = false.
Proof.
  induction 1 as [|l ls [Hl Hne] Hls [IH1 IH2]]; [split; [exact I | reflexivity]|].
  assert (Hh : head_not (N.eqb NL) l).
  { destruct l as [|c l]; [exact I|]. cbn [head_not].
    apply N.eqb_neq. intros E. apply Hl. left. symmetry. exact E. }
  destruct ls as [|l' ls'].
  - simpl. split; [exact Hh | apply contains_double_newline_free, Hl].
  - change (join [NL] (l :: l' :: ls')) with (l ++ NL :: join [NL] (l' :: ls')).
    split.
    + destruct l as [|c l]; [congruence | exact Hh].
    + apply contains_double_newline_app; assumption.
Qed.

(** What [clean_text] joins: stripped lines, none empty, none holding a
    line boundary. *)
Lemma stripped_lines_shape (text : str) :
  Forall (fun l => one_line l /\ l <> [] /\ strip l = l)
    (map strip (filter (fun line => negb (is_empty (strip line))) (splitlines text))).
Proof.
  apply Forall_forall. intros l Hl.
  apply in_map_iff in Hl. destruct Hl as [x [<- Hx]].
  apply filter_In in Hx. destruct Hx as [Hx Hne].
  pose proof (splitlines_one_line text) as Hall.
  rewrite Forall_forall in Hall. specialize (Hall x Hx).
  split; [|split].
  - intros c Hc. apply Hall. apply strip_In. exact Hc.
  - destruct (strip x); [discriminate | discriminate].
  - apply strip_strip.
Qed.

(** ** Facts about matching *)

Lemma isSome_first {A : Type} (a b : option A) :
  isSome (match a with Some m => Some m | None => b end) = isSome a || isSome b.
Proof. destruct a; reflexivity. Qed.

Section MatchingFacts.

Variable U : unicode.

Lemma rep_isSome_nil (f : flags) (s : cset) (g : bool) (k : cont) (cs : caps)
    (lo pos : nat) :
  isSome (rep U f s g k lo pos [] cs)
  = isSome (match lo with O => k pos [] cs | S _ => None end).
Proof.
  simpl. destruct g; [reflexivity|].
  destruct (match lo with O => k pos [] cs | S _ => None end); reflexivity.
Qed.

Lemma rep_isSome_cons (f : flags) (s : cset) (g : bool) (k : cont) (cs : caps)
    (lo pos : nat) (c : char) (rest : str) :
  isSome (rep U f s g k lo pos (c :: rest) cs)
  = isSome (if cset_matches U f s c
            then rep U f s g k (pred lo) (S pos) rest cs else None)
    || isSome (match lo with O => k pos (c :: rest) cs | S _ => None end).
Proof.
  cbn [rep]. destruct g.
  - apply isSome_first.
  - rewrite isSome_first. apply orb_comm.
Qed.

(** A repetition succeeds exactly when some admissible number of
    characters of the set can be taken so that the rest of the pattern
    succeeds; greedy or lazy only decides which such number is found. *)
Lemma rep_isSome (f : flags) (s : cset) (g : bool) (k : cont) (cs : caps)
    (rest : str) :
  forall lo pos,
    isSome (rep U f s g k lo pos rest cs) = true <->
    exists n, (lo <= n <= List.length rest)%nat
      /\ forallb (cset_matches U f s) (firstn n rest) = true
      /\ isSome (k (pos + n)%nat (skipn n rest) cs) = true.
Proof.
  induction rest as [|c rest IH]; intros lo pos.
  - rewrite rep_isSome_nil. split.
    + intros H. exists 0%nat. destruct lo; [|discriminate].
      rewrite Nat.add_0_r. simpl. auto with arith.
    + intros [n [[H1 H2] [_ H3]]]. simpl in H2.
      assert (n = 0)%nat by lia. subst n. assert (lo = 0)%nat by lia. subst lo.
      rewrite Nat.add_0_r in H3. exact H3.
  - rewrite rep_isSome_cons, orb_true_iff. split.
    + intros [H|H].
      * destruct (cset_matches U f s c) eqn:Ec; [|discriminate].
        apply IH in H. destruct H as [n [[H1 H2] [H3 H4]]].
        exists (S n). repeat split.
        -- lia.
        -- simpl. lia.
        -- simpl. rewrite Ec. exact H3.
        -- rewrite Nat.add_succ_r. exact H4.
      * destruct lo; [|discriminate]. exists 0%nat.
        rewrite Nat.add_0_r. simpl. repeat split; auto with arith.
    + intros [n [[H1 H2] [H3 H4]]]. destruct n as [|n].
      * right. assert (lo = 0)%nat by lia. subst lo.
        rewrite Nat.add_0_r in H4. exact H4.
      * left. simpl in H3. apply andb_true_iff in H3. destruct H3 as [Ec H3].
        rewrite Ec. apply IH. exists n. simpl in H2.
        rewrite Nat.add_succ_r in H4. repeat split; [lia | lia | exact H3 | exact H4].
Qed.

(** A literal piece of a pattern, case-sensitively: the text must start
    with it. *)
Lemma rmatch_lit (f : flags) (s : str) (k : cont) (cs : caps) :
  ignorecase f = false ->
  forall pos rest,
    rmatch U f (lit s) k pos rest cs
    = if starts_with s rest
      then k (pos + List.length s)%nat (skipn (List.length s) rest) cs
      else None.
Proof.
  intros Hf. induction s as [|x s IH]; intros pos rest.
  - simpl. rewrite Nat.add_0_r. reflexivity.
  - cbn [lit rmatch chr]. destruct rest as [|c rest]; [reflexivity|].
    cbn [starts_with cset_matches one existsb item_matches].
    rewrite Hf. simpl andb. rewrite !orb_false_r.
    simpl xorb. rewrite (N.eqb_sym c x).
    destruct (x =? c); [|reflexivity]. simpl andb.
    rewrite IH. cbn [List.length skipn]. rewrite Nat.add_succ_r. reflexivity.
Qed.

(** A search succeeds exactly when the pattern matches at the start or the
    search further on does. *)
Lemma search_from_isSome (f : flags) (r : regex) (pos : nat) (rest : str) :
  isSome (search_from U f r pos rest)
  = isSome (rmatch U f r accept pos rest [])
    || match rest with
       | [] => false
       | _ :: rest' => isSome (search_from U f r (S pos) rest')
       end.
Proof.
  destruct rest as [|c rest]; cbn [search_from]; unfold match_at;
    destruct (rmatch U f r accept pos _ []) as [[e cs]|]; reflexivity.
Qed.

End MatchingFacts.

(** ** The text normalizer drops every blank line *)

Lemma join_stripped_lines_facts (text : str) :
  Forall (fun line => strip line <> []) (splitlines (join_stripped_lines text))
  /\ contains [NL; NL] (join_stripped_lines text) = false.
Proof.
  unfold join_stripped_lines.
  pose proof (stripped_lines_shape text) as H.
  set (ls := map strip _) in *. split.
  - rewrite splitlines_join.
    + eapply Forall_impl; [|exact H]. intros l [_ [Hne Hs]]. rewrite Hs. exact Hne.
    + eapply Forall_impl; [|exact H]. intros l [H1 [H2 _]]. split; assumption.
  - apply join_lines_no_double_newline.
    eapply Forall_impl; [|exact H]. intros l [H1 [H2 _]]. split; [|exact H2].
    intros Hin. specialize (H1 NL Hin). discriminate.
Qed.

(** C9: every line of the output of [clean_text] is non-empty after
    stripping, so all blank lines are gone, the separators between
    paragraphs included: the output never holds two newlines in a row, and
    splitting it on the double newline gives back the one block it is. *)
Theorem clean_text_drops_every_blank_line (U : unicode) (text : str) :
  Forall (fun line => strip line <> []) (splitlines (clean_text U text))
  /\ contains [NL; NL] (clean_text U text) = false
  /\ split [NL; NL] (clean_text U text) = [clean_text U text].
Proof.
  assert (H : Forall (fun line => strip line <> []) (splitlines (clean_text U text))
              /\ contains [NL; NL] (clean_text U text) = false).
  { unfold clean_text. destruct (is_empty text).
    - split; [constructor | reflexivity].
    - apply join_stripped_lines_facts. }
  destruct H as [H1 H2]. repeat split; [exact H1 | exact H2|].
  apply split_without_separator. exact H2.
Qed.

(** ** The paragraph filter *)

Lemma forallb_same (p q : char -> bool) (s : str) :
  (forall c, p c = q c) -> forallb p s = forallb q s.
Proof.
  intros H. induction s as [|c s IH]; [reflexivity|].
  simpl. rewrite H, IH. reflexivity.
Qed.

Section ParagraphFacts.

Variable U : unicode.

Lemma match_at_isSome (f : flags) (r : regex) (pos : nat) (rest : str) :
  isSome (match_at U f r pos rest) = isSome (rmatch U f r accept pos rest []).
Proof.
  unfold match_at. destruct (rmatch U f r accept pos rest []) as [[e cs]|]; reflexivity.
Qed.

Lemma cset_digit (c : char) : cset_matches U no_flags digit c = is_decimal U c.
Proof. simpl. apply orb_false_r. Qed.

Lemma cset_decoration (c : char) :
  cset_matches U no_flags decoration c = is_decoration_char U c.
Proof.
  unfold is_decoration_char. simpl.
  destruct (is_decimal U c), (is_space c), (c =? 45), (c =? 46), (c =? 40), (c =? 41);
    reflexivity.
Qed.

(** A run of characters of [s] that reaches the end of the text is matched
    by [^s+$]. *)
Lemma whole_run_matched (s : cset) (p : char -> bool) (para : str) :
  (forall c, cset_matches U no_flags s c = p c) ->
  made_of p para = true ->
  isSome (re_match U no_flags (seqs [Bol; plus s; Eol]) para) = true.
Proof.
  intros Hs H. unfold made_of in H. apply andb_true_iff in H. destruct H as [Hne Hall].
  unfold re_match. rewrite match_at_isSome. cbn [seqs plus rmatch Nat.eqb].
  apply rep_isSome. exists (List.length para). repeat split.
  - destruct para; [discriminate | simpl; lia].
  - lia.
  - rewrite firstn_all, (forallb_same _ p); [exact Hall | exact Hs].
  - rewrite skipn_all. reflexivity.
Qed.

Lemma digits_only_matched (para : str) :
  digits_only U para = true ->
  isSome (re_match U no_flags re_only_digits para) = true.
Proof. apply whole_run_matched, cset_digit. Qed.

Lemma decoration_only_matched (para : str) :
  decoration_only U para = true ->
  isSome (re_match U no_flags re_decoration para) = true.
Proof. apply whole_run_matched, cset_decoration. Qed.

Lemma page_marker_matched (para : str) :
  page_marker U para = true ->
  isSome (re_match U no_flags re_page_prefix para) = true.
Proof.
  unfold page_marker. intros H. apply andb_true_iff in H. destruct H as [Hp Hd].
  unfold re_match. rewrite match_at_isSome.
  cbn [re_page_prefix seqs rmatch Nat.eqb].
  rewrite rmatch_lit by reflexivity. rewrite Hp.
  change (List.length (py "Page ")) with 5%nat.
  cbn [plus rmatch]. apply rep_isSome. exists 1%nat.
  destruct (skipn 5 para) as [|d more]; [discriminate|].
  repeat split.
  - lia.
  - simpl. lia.
  - cbn [firstn forallb]. rewrite cset_digit, Hd. reflexivity.
Qed.

(** What the loop emits: trimmed blocks that pass every test, in the
    order of the blocks. *)
Lemma process_paragraphs_facts (min_length : Z) (blocks : list str) :
  Forall (fun p => strip p = p
                   /\ (min_length <= Z.of_nat (List.length p))%Z
                   /\ digits_only U p = false
                   /\ page_marker U p = false
                   /\ decoration_only U p = false)
    (process_paragraphs U min_length blocks)
  /\ subseq (process_paragraphs U min_length blocks) (map strip blocks).
Proof.
  induction blocks as [|b blocks [IH1 IH2]]; [split; constructor|].
  cbn [process_paragraphs map].
  destruct (Z.ltb_spec (Z.of_nat (List.length (strip b))) min_length) as [Hlen|Hlen].
  { split; [exact IH1 | constructor; exact IH2]. }
  destruct (isSome (re_match U no_flags re_only_digits (strip b))) eqn:Ed.
  { split; [exact IH1 | constructor; exact IH2]. }
  destruct (isSome (re_match U no_flags re_page_prefix (strip b))) eqn:Ep.
  { split; [exact IH1 | constructor; exact IH2]. }
  cbn [orb].
  destruct (isSome (re_match U no_flags re_decoration (strip b))) eqn:Eo.
  { split; [exact IH1 | constructor; exact IH2]. }
  split; [|constructor; exact IH2].
  constructor; [|exact IH1].
  split; [apply strip_strip|]. split; [exact Hlen|].
  repeat split.
  - destruct (digits_only U (strip b)) eqn:E; [|reflexivity].
    apply digits_only_matched in E. congruence.
  - destruct (page_marker U (strip b)) eqn:E; [|reflexivity].
    apply page_marker_matched in E. congruence.
  - destruct (decoration_only U (strip b)) eqn:E; [|reflexivity].
    apply decoration_only_matched in E. congruence.
Qed.

End ParagraphFacts.

(** C7: for every text and every [min_length], each paragraph
    [split_into_paragraphs] emits is a trimmed block of length at least
    [min_length] that is neither digits only, nor begins with "Page" and
    digits, nor is a decoration block of digits, white space, hyphens,
    periods and parentheses; and the emitted paragraphs are blocks of the
    text in their original order. *)
Theorem split_into_paragraphs_filter (U : unicode) (text : str) (min_length : Z) :
  Forall (fun p => strip p = p
                   /\ (min_length <= Z.of_nat (List.length p))%Z
                   /\ digits_only U p = false
                   /\ page_marker U p = false
                   /\ decoration_only U p = false)
    (split_into_paragraphs U text min_length)
  /\ subseq (split_into_paragraphs U text min_length)
       (map strip (split [NL; NL] text)).
Proof. apply process_paragraphs_facts. Qed.

(** ** The groups of a match *)

Lemma first_some_inv {A : Type} (a b : option A) (x : A) :
  match a with Some m => Some m | None => b end = Some x ->
  a = Some x \/ b = Some x.
Proof. destruct a; auto. Qed.

Section GroupFacts.

Variable U : unicode.
Variable f : flags.

Lemma rep_maps (s : cset) (g : bool) (k : cont) (P Q : caps -> Prop) :
  cont_maps P Q k -> forall lo, cont_maps P Q (rep U f s g k lo).
Proof.
  intros Hk lo pos rest. revert lo pos.
  induction rest as [|c rest IH]; intros lo pos cs e cs' HP H.
  - assert (Hstop : match lo with O => k pos [] cs | S _ => None end = Some (e, cs')).
    { simpl in H. destruct g; [exact H|].
      apply first_some_inv in H. destruct H as [H|H]; [exact H | discriminate]. }
    destruct lo; [|discriminate]. exact (Hk _ _ _ _ _ HP Hstop).
  - assert (Hc : (if cset_matches U f s c
                  then rep U f s g k (pred lo) (S pos) rest cs else None)
                 = Some (e, cs')
                 \/ match lo with O => k pos (c :: rest) cs | S _ => None end
                    = Some (e, cs')).
    { cbn [rep] in H. destruct g; apply first_some_inv in H; tauto. }
    destruct Hc as [Hc|Hc].
    + destruct (cset_matches U f s c); [|discriminate].
      exact (IH _ _ _ _ _ HP Hc).
    + destruct lo; [|discriminate]. exact (Hk _ _ _ _ _ HP Hc).
Qed.

(** A property of the groups that setting a group preserves is carried
    through the match of any pattern. *)
Lemma rmatch_maps (P : caps -> Prop) :
  (forall n sp cs, P cs -> P (set_cap n sp cs)) ->
  forall (r : regex) (Q : caps -> Prop) (k : cont),
    cont_maps P Q k -> cont_maps P Q (rmatch U f r k).
Proof.
  intros Hset. induction r as [|s|s lo g|s|r1 IH1 r2 IH2|r1 IH1 r2 IH2|n r1 IH1| | |r1 IH1];
    intros Q k Hk pos rest cs e cs' HP H; cbn [rmatch] in H.
  - exact (Hk _ _ _ _ _ HP H).
  - destruct rest as [|c rest]; [discriminate|].
    destruct (cset_matches U f s c); [|discriminate]. exact (Hk _ _ _ _ _ HP H).
  - exact (rep_maps s g k P Q Hk lo _ _ _ _ _ HP H).
  - apply first_some_inv in H. destruct H as [H|H].
    + destruct rest as [|c rest]; [discriminate|].
      destruct (cset_matches U f s c); [|discriminate]. exact (Hk _ _ _ _ _ HP H).
    + exact (Hk _ _ _ _ _ HP H).
  - exact (IH1 Q (rmatch U f r2 k) (IH2 Q k Hk) _ _ _ _ _ HP H).
  - apply first_some_inv in H. destruct H as [H|H].
    + exact (IH1 Q k Hk _ _ _ _ _ HP H).
    + exact (IH2 Q k Hk _ _ _ _ _ HP H).
  - refine (IH1 Q _ _ _ _ _ _ _ HP H).
    intros pos' rest' cs1 e1 cs1' HP1 H1.
    exact (Hk _ _ _ _ _ (Hset _ _ _ HP1) H1).
  - destruct (Nat.eqb pos 0); [|discriminate]. exact (Hk _ _ _ _ _ HP H).
  - destruct rest as [|c [|d rest]]; try discriminate.
    + exact (Hk _ _ _ _ _ HP H).
    + destruct (c =? NL); [|discriminate]. exact (Hk _ _ _ _ _ HP H).
  - destruct (rmatch U f r1 accept pos rest cs) as [[e1 cs1]|] eqn:E; [|discriminate].
    assert (HP1 : P cs1).
    { refine (IH1 P accept _ _ _ _ _ _ HP E).
      intros ? ? ? ? ? HP2 [= _ <-]. exact HP2. }
    exact (Hk _ _ _ _ _ HP1 H).
Qed.

Lemma has_group_set (n m : nat) (sp : nat * nat) (cs : caps) :
  has_group n cs -> has_group n (set_cap m sp cs).
Proof.
  unfold has_group, set_cap. simpl. destruct (Nat.eqb m n); [discriminate | auto].
Qed.

(** Once group [n] took part it stays. *)
Lemma keeps_group (n : nat) (r : regex) (k : cont) :
  cont_maps (has_group n) (has_group n) k ->
  cont_maps (has_group n) (has_group n) (rmatch U f r k).
Proof. apply rmatch_maps. intros m sp cs. apply has_group_set. Qed.

(** A pattern that goes on to something in which group [n] takes part. *)
Lemma then_group (n : nat) (r1 r2 : regex) (k : cont) :
  cont_maps (fun _ => True) (has_group n) (rmatch U f r2 k) ->
  cont_maps (fun _ => True) (has_group n) (rmatch U f (Seq r1 r2) k).
Proof. intros H. cbn [rmatch]. apply rmatch_maps; [trivial | exact H]. Qed.

(** Group [n] takes part in a match of [Grp n r]. *)
Lemma in_group (n : nat) (r : regex) (k : cont) :
  cont_maps (has_group n) (has_group n) k ->
  cont_maps (fun _ => True) (has_group n) (rmatch U f (Grp n r) k).
Proof.
  intros Hk pos rest cs e cs' _ H. cbn [rmatch] in H.
  refine (rmatch_maps (fun _ => True) _ r (has_group n) _ _ _ _ _ _ _ I H); [trivial|].
  intros pos' rest' cs1 e1 cs1' _ H1.
  refine (Hk _ _ _ _ _ _ H1).
  unfold has_group, set_cap. simpl. rewrite Nat.eqb_refl. discriminate.
Qed.

Lemma accept_keeps (P : caps -> Prop) : cont_maps P P accept.
Proof. intros ? ? ? ? ? HP [= _ <-]. exact HP. Qed.

Lemma accept_after_keeps (P : caps -> Prop) (start : nat) :
  cont_maps P P (accept_after start).
Proof.
  intros pos ? ? ? ? HP H. unfold accept_after in H.
  destruct (Nat.eqb pos start); [discriminate|].
  injection H as _ <-. exact HP.
Qed.

Lemma match_at_group (r : regex) (n : nat) (pos : nat) (rest : str) (m : rmatch_obj) :
  always_groups U f r n -> match_at U f r pos rest = Some m -> has_group n (m_caps m).
Proof.
  intros Hr H. unfold match_at in H.
  destruct (rmatch U f r accept pos rest []) as [[e cs]|] eqn:E; [|discriminate].
  injection H as <-. simpl.
  exact (Hr accept (accept_keeps _) _ _ _ _ _ I E).
Qed.

Lemma match_after_empty_group (r : regex) (n : nat) (pos : nat) (rest : str)
    (m : rmatch_obj) :
  always_groups U f r n -> match_after_empty U f r pos rest = Some m ->
  has_group n (m_caps m).
Proof.
  intros Hr H. unfold match_after_empty in H.
  destruct (rmatch U f r (accept_after pos) pos rest []) as [[e cs]|] eqn:E;
    [|discriminate].
  injection H as <-. simpl.
  exact (Hr (accept_after pos) (accept_after_keeps _ pos) _ _ _ _ _ I E).
Qed.

Lemma search_from_group (r : regex) (n : nat) (rest : str) :
  always_groups U f r n ->
  forall pos m, search_from U f r pos rest = Some m -> has_group n (m_caps m).
Proof.
  intros Hr. induction rest as [|c rest IH]; intros pos m H; cbn [search_from] in H.
  - destruct (match_at U f r pos []) eqn:E; [|discriminate].
    injection H as <-. exact (match_at_group r n pos [] _ Hr E).
  - destruct (match_at U f r pos (c :: rest)) eqn:E.
    + injection H as <-. exact (match_at_group r n pos _ _ Hr E).
    + exact (IH _ _ H).
Qed.

Lemma matches_here_group (r : regex) (n : nat) (pos : nat) (rest : str) :
  always_groups U f r n ->
  Forall (fun m => has_group n (m_caps m)) (matches_here U f r pos rest).
Proof.
  intros Hr. unfold matches_here.
  destruct (match_at U f r pos rest) as [m|] eqn:E; [|constructor].
  pose proof (match_at_group r n pos rest m Hr E) as Hm.
  destruct (Nat.eqb (m_end m) pos); [|repeat constructor; exact Hm].
  constructor; [exact Hm|].
  destruct (match_after_empty U f r pos rest) as [m'|] eqn:E'; [|constructor].
  repeat constructor. exact (match_after_empty_group r n pos rest m' Hr E').
Qed.

Lemma finditer_go_group (r : regex) (n : nat) (rest : str) :
  always_groups U f r n ->
  forall skip pos,
    Forall (fun m => has_group n (m_caps m)) (finditer_go U f r skip pos rest).
Proof.
  intros Hr. induction rest as [|c rest IH]; intros skip pos;
    destruct skip; cbn [finditer_go]; try constructor; try apply IH.
  - rewrite app_nil_r. apply matches_here_group, Hr.
  - apply Forall_app. split; [apply matches_here_group, Hr | apply IH].
Qed.

End GroupFacts.

(** A group that took part can be stripped. *)
Lemma group_strip_returns (text : str) (m : rmatch_obj) (n : nat) :
  has_group n (m_caps m) -> exists g, group_strip text m n = Returns g.
Proof.
  unfold has_group, group_strip, group. intros H.
  destruct (get_cap n (m_caps m)) as [[a b]|]; [|congruence].
  eexists. reflexivity.
Qed.

Lemma seq_group (U : unicode) (f : flags) (n : nat) (g r2 : regex) (k : cont) :
  cont_maps (has_group n) (has_group n) k ->
  cont_maps (fun _ => True) (has_group n) (rmatch U f (Seq (Grp n g) r2) k).
Proof.
  intros Hk. change (rmatch U f (Seq (Grp n g) r2) k)
    with (rmatch U f (Grp n g) (rmatch U f r2 k)).
  apply in_group, keeps_group, Hk.
Qed.

(** Proves [always_groups U f r n] for a pattern that is a sequence with
    [Grp n _] in it. *)
Ltac groups_always :=
  intros k Hk; cbn [seqs];
  repeat first [ apply seq_group; exact Hk
               | apply in_group; exact Hk
               | apply then_group ].

Section ProgramGroups.

Variable U : unicode.
Variable f : flags.

Lemma re_abstract_groups : always_groups U f re_abstract 1.
Proof. unfold re_abstract. groups_always. Qed.

Lemma re_keywords_groups : always_groups U f re_keywords 1.
Proof. unfold re_keywords. groups_always. Qed.

Lemma section_patterns_group :
  Forall (fun pattern => always_groups U f pattern 1) section_patterns.
Proof.
  repeat constructor;
    [unfold re_numbered_heading | unfold re_caps_heading | unfold re_named_heading];
    groups_always.
Qed.

End ProgramGroups.

(** ** The extractors return *)

Lemma dict_get_set_other (k k' : string) (v : str) (d : dict) :
  k <> k' -> dict_get k (dict_set k' v d) = dict_get k d.
Proof.
  intros Hk. induction d as [|[k0 v0] d IH]; simpl.
  - destruct (String.eqb_spec k' k); [congruence | reflexivity].
  - destruct (String.eqb_spec k0 k') as [E|E]; simpl.
    + subst k0. destruct (String.eqb_spec k' k); [congruence | reflexivity].
    + destruct (String.eqb_spec k0 k); [reflexivity | exact IH].
Qed.

Section Returning.

Variable U : unicode.

(** What the search for the abstract or the keywords adds to the
    metadata never raises and leaves the other keys alone. *)
Lemma add_field_returns (r : regex) (key : string) (text : str) (d : dict) :
  always_groups U icase_dotall r 1 ->
  exists d',
    match re_search U icase_dotall r text with
    | Some found => value <- group_strip text found 1 ;;
                    Returns (dict_set key value d)
    | None => Returns d
    end = Returns d'
    /\ (forall k, k <> key -> dict_get k d' = dict_get k d).
Proof.
  intros Hr. destruct (re_search U icase_dotall r text) as [found|] eqn:E.
  - destruct (group_strip_returns text found 1) as [g Hg].
    { exact (search_from_group U icase_dotall r 1 text Hr 0%nat found E). }
    rewrite Hg. cbn [bind]. eexists. split; [reflexivity|].
    intros k Hk. apply dict_get_set_other, Hk.
  - exists d. split; [reflexivity | reflexivity].
Qed.

(** The two searches of [extract_paper_metadata] never raise and leave
    the title alone. *)
Lemma add_fields_returns (text : str) (d0 : dict) :
  exists d,
    (metadata <-
       match re_search U icase_dotall re_abstract text with
       | Some abstract_match =>
           abstract <- group_strip text abstract_match 1 ;;
           Returns (dict_set "abstract" abstract d0)
       | None => Returns d0
       end ;;
     metadata <-
       match re_search U icase_dotall re_keywords text with
       | Some keywords_match =>
           keywords <- group_strip text keywords_match 1 ;;
           Returns (dict_set "keywords" keywords metadata)
       | None => Returns metadata
       end ;;
     Returns metadata) = Returns d
    /\ dict_get "title" d = dict_get "title" d0.
Proof.
  destruct (add_field_returns re_abstract "abstract" text d0
              (re_abstract_groups U icase_dotall)) as [d1 [E1 K1]].
  rewrite E1. cbn [bind].
  destruct (add_field_returns re_keywords "keywords" text d1
              (re_keywords_groups U icase_dotall)) as [d2 [E2 K2]].
  rewrite E2. cbn [bind].
  exists d2. split; [reflexivity|].
  rewrite K2, K1; [reflexivity | discriminate | discriminate].
Qed.

(** [extract_paper_metadata] never raises, and the title of what it
    returns is the first line the loop took as a candidate. *)
Lemma extract_paper_metadata_returns (text : str) :
  exists d, extract_paper_metadata U text = Returns d
            /\ dict_get "title" d
               = match filter (is_title_candidate U) (firstn 20 (split [NL] text)) with
                 | first :: _ => Some first
                 | [] => None
                 end.
Proof.
  unfold extract_paper_metadata. cbv zeta.
  destruct (filter (is_title_candidate U) (firstn 20 (split [NL] text)))
    as [|first others].
  - apply (add_fields_returns text []).
  - apply (add_fields_returns text (dict_set "title" first [])).
Qed.

Lemma add_breaks_returns (text : str) (matches : list rmatch_obj) :
  Forall (fun m => has_group 1 (m_caps m)) matches ->
  forall section_breaks,
    exists found, add_breaks text matches section_breaks = Returns found.
Proof.
  induction 1 as [|m more Hm _ IH]; intros section_breaks; cbn [add_breaks].
  - eexists. reflexivity.
  - destruct (group_strip_returns text m 1 Hm) as [g Hg]. rewrite Hg. cbn [bind].
    apply IH.
Qed.

Lemma scan_patterns_returns (text : str) (patterns : list regex) :
  Forall (fun pattern => always_groups U icase pattern 1) patterns ->
  forall section_breaks,
    exists found, scan_patterns U text patterns section_breaks = Returns found.
Proof.
  induction 1 as [|pattern more Hp _ IH]; intros section_breaks; cbn [scan_patterns].
  - eexists. reflexivity.
  - destruct (add_breaks_returns text (re_finditer U icase pattern text)
                (finditer_go_group U icase pattern 1 text Hp 0%nat 0%nat) section_breaks)
      as [found Hf].
    rewrite Hf. cbn [bind]. apply IH.
Qed.

(** [section_breaks] and [split_into_sections] never raise. *)
Lemma section_breaks_returns (text : str) :
  exists breaks, section_breaks U text = Returns breaks.
Proof.
  unfold section_breaks.
  destruct (scan_patterns_returns text section_patterns
              (section_patterns_group U icase) [(0%nat, start_title)]) as [found Hf].
  rewrite Hf. eexists. reflexivity.
Qed.

Lemma split_into_sections_returns (text : str) :
  exists breaks,
    section_breaks U text = Returns breaks
    /\ split_into_sections U text
       = Returns (inner_sections text breaks ++ last_section text breaks).
Proof.
  destruct (section_breaks_returns text) as [breaks Hb].
  exists breaks. split; [exact Hb|].
  unfold split_into_sections. rewrite Hb. reflexivity.
Qed.

End Returning.

(** ** The title *)

Section TitleFacts.

Variable U : unicode.

Lemma cset_chr (x c : char) : cset_matches U no_flags (one (I_chr x)) c = (c =? x).
Proof. simpl. rewrite !orb_false_r. reflexivity. Qed.

Lemma digits_then_period_rep (g : bool) (rest : str) :
  forall pos,
    isSome (rep U no_flags digit g (rmatch U no_flags (chr 46) accept) 0 pos rest [])
    = digits_then_period U rest.
Proof.
  induction rest as [|c rest IH]; intros pos.
  - rewrite rep_isSome_nil. reflexivity.
  - rewrite rep_isSome_cons, cset_digit. cbn [pred digits_then_period rmatch chr].
    rewrite cset_chr.
    destruct (is_decimal U c).
    + rewrite IH. destruct (c =? 46), (digits_then_period U rest); reflexivity.
    + destruct (c =? 46); reflexivity.
Qed.

(** r"^\d+\." matches where the text starts and a marker stands. *)
Lemma marker_at (pos : nat) (rest : str) :
  isSome (rmatch U no_flags (seqs [Bol; plus digit; chr 46]) accept pos rest [])
  = Nat.eqb pos 0 && list_marker U rest.
Proof.
  cbn [seqs rmatch]. destruct (Nat.eqb pos 0); [|reflexivity].
  cbn [plus rmatch andb]. destruct rest as [|c rest].
  - rewrite rep_isSome_nil. reflexivity.
  - rewrite rep_isSome_cons, cset_digit. cbn [pred list_marker].
    rewrite orb_false_r. destruct (is_decimal U c); [|reflexivity].
    apply digits_then_period_rep.
Qed.

Lemma lit_at (s : str) (pos : nat) (rest : str) :
  isSome (rmatch U no_flags (lit s) accept pos rest []) = starts_with s rest.
Proof.
  rewrite rmatch_lit by reflexivity. destruct (starts_with s rest); reflexivity.
Qed.

Lemma not_title_at (pos : nat) (rest : str) :
  isSome (rmatch U no_flags re_not_title accept pos rest [])
  = (Nat.eqb pos 0 && list_marker U rest)
    || starts_with (py "abstract") rest
    || starts_with (py "introduction") rest
    || starts_with (py "arxiv") rest.
Proof.
  unfold re_not_title. cbn [alts rmatch].
  rewrite !isSome_first, marker_at, !lit_at, !orb_assoc. reflexivity.
Qed.

Lemma not_title_search (rest : str) :
  forall pos,
    isSome (search_from U no_flags re_not_title pos rest)
    = (Nat.eqb pos 0 && list_marker U rest)
      || contains (py "abstract") rest
      || contains (py "introduction") rest
      || contains (py "arxiv") rest.
Proof.
  induction rest as [|c rest IH]; intros pos;
    rewrite search_from_isSome, not_title_at.
  - cbn [contains]. rewrite !orb_false_r. reflexivity.
  - rewrite IH. cbn [Nat.eqb andb orb].
    change (contains ?p (c :: rest)) with (starts_with p (c :: rest) || contains p rest).
    generalize (Nat.eqb pos 0 && list_marker U (c :: rest)).
    generalize (starts_with (py "abstract") (c :: rest)).
    generalize (starts_with (py "introduction") (c :: rest)).
    generalize (starts_with (py "arxiv") (c :: rest)).
    generalize (contains (py "abstract") rest).
    generalize (contains (py "introduction") rest).
    generalize (contains (py "arxiv") rest).
    intros [] [] [] [] [] [] []; reflexivity.
Qed.

(** The test of the program and the candidates of the specification are
    the same. *)
Lemma is_title_candidate_spec (line : str) :
  is_title_candidate U line = title_candidate U line.
Proof.
  unfold is_title_candidate, title_candidate, not_a_title, re_search.
  rewrite not_title_search. reflexivity.
Qed.

Lemma first_of_filter {A : Type} (p : A -> bool) (l : list A) :
  match filter p l with x :: _ => Some x | [] => None end = find p l.
Proof.
  induction l as [|x l IH]; [reflexivity|]. simpl. destruct (p x); [reflexivity | exact IH].
Qed.

Lemma filter_same {A : Type} (p q : A -> bool) (l : list A) :
  (forall x, p x = q x) -> filter p l = filter q l.
Proof.
  intros H. induction l as [|x l IH]; [reflexivity|]. simpl. rewrite H, IH. reflexivity.
Qed.

(** [extract_paper_metadata] returns, and the title of what it returns
    is the first candidate line. *)
Lemma title_of_metadata (text : str) :
  exists d, extract_paper_metadata U text = Returns d
            /\ dict_get "title" d = find (title_candidate U) (first_20_lines text).
Proof.
  destruct (extract_paper_metadata_returns U text) as [d [E T]].
  exists d. split; [exact E|].
  rewrite (filter_same _ _ _ is_title_candidate_spec), first_of_filter in T.
  exact T.
Qed.

End TitleFacts.

(** C10: a line among the first 20 that holds "abstract", "introduction"
    or "arxiv" anywhere once lower-cased is never the title
    [extract_paper_metadata] selects: the exclusion is a substring test
    over the whole lower-cased line. *)
Theorem keyword_line_is_never_title (U : unicode) (text line : str) :
  In line (first_20_lines text) ->
  contains (py "abstract") (lower U line)
  || contains (py "introduction") (lower U line)
  || contains (py "arxiv") (lower U line) = true ->
  exists d, extract_paper_metadata U text = Returns d
            /\ dict_get "title" d <> Some line.
Proof.
  intros _ Hword. destruct (title_of_metadata U text) as [d [E T]].
  exists d. split; [exact E|]. intros Htitle. rewrite T in Htitle.
  apply find_some in Htitle. destruct Htitle as [_ Hc].
  unfold title_candidate, not_a_title in Hc.
  apply andb_true_iff in Hc. destruct Hc as [_ Hc].
  apply negb_true_iff in Hc. rewrite <- !orb_assoc in Hc.
  apply orb_false_iff in Hc. destruct Hc as [_ Hc].
  rewrite <- !orb_assoc in Hword. rewrite Hc in Hword. discriminate.
Qed.

Lemma keyword_line_is_never_title_witness :
  exists d,
    extract_paper_metadata basic_latin
      (py "A Gentle Introduction to Slide Generation\nJane Doe and Richard Roe, Some University")
    = Returns d
    /\ dict_get "title" d <> Some (py "A Gentle Introduction to Slide Generation").
Proof.
  apply (keyword_line_is_never_title basic_latin
           (py "A Gentle Introduction to Slide Generation\nJane Doe and Richard Roe, Some University")
           (py "A Gentle Introduction to Slide Generation")).
  - vm_compute. left. reflexivity.
  - vm_compute. reflexivity.
Defined.

(** C4, amended: [extract_paper_metadata] returns, and the title it
    returns is the first line, among the first 20, that is longer than 20
    and shorter than 200 characters and does not signal "not a title" (a
    leading numbered-list marker, or "abstract", "introduction", "arxiv"
    in the lower-cased line); when exactly one line qualifies it is the
    title, and when none does there is no title. *)
Theorem title_is_first_candidate (U : unicode) (text : str) :
  exists d,
    extract_paper_metadata U text = Returns d
    /\ dict_get "title" d = find (title_candidate U) (first_20_lines text)
    /\ (forall line,
          In line (first_20_lines text) -> title_candidate U line = true ->
          (forall other, In other (first_20_lines text) ->
                         title_candidate U other = true -> other = line) ->
          dict_get "title" d = Some line)
    /\ ((forall line, In line (first_20_lines text) -> title_candidate U line = false) ->
        dict_get "title" d = None).
Proof.
  destruct (title_of_metadata U text) as [d [E T]].
  exists d. split; [exact E|]. split; [exact T|]. rewrite T. split.
  - intros line Hin Hc Huniq.
    destruct (find (title_candidate U) (first_20_lines text)) as [x|] eqn:F.
    + apply find_some in F. destruct F as [Hx1 Hx2].
      rewrite (Huniq x Hx1 Hx2). reflexivity.
    + rewrite (find_none _ _ F line Hin) in Hc. discriminate.
  - intros Hnone.
    destruct (find (title_candidate U) (first_20_lines text)) as [x|] eqn:F;
      [|reflexivity].
    apply find_some in F. destruct F as [Hx1 Hx2].
    rewrite (Hnone x Hx1) in Hx2. discriminate.
Qed.

(** The only qualifying line of a text is selected. *)
Lemma title_is_first_candidate_witness :
  exists d,
    extract_paper_metadata basic_latin
      (py "arXiv:2104.05740v1\nLearning to Make Slides from Papers\nAbstract\nWe study slides.")
    = Returns d
    /\ dict_get "title" d = Some (py "Learning to Make Slides from Papers").
Proof.
  destruct (title_is_first_candidate basic_latin
              (py "arXiv:2104.05740v1\nLearning to Make Slides from Papers\nAbstract\nWe study slides."))
    as [d [E [_ [H _]]]].
  exists d. split; [exact E|]. apply H.
  - vm_compute. right. left. reflexivity.
  - vm_compute. reflexivity.
  - intros other Hin Hc. vm_compute in Hin.
    destruct Hin as [<-|[<-|[<-|[<-|[]]]]]; vm_compute in Hc; try discriminate Hc.
    reflexivity.
Defined.

(** C4 as worded fails at length 20: the text is one line of 20 characters
    with no excluded word, the only line "of length 20 to 199", and the
    metadata returned holds no title. *)
Lemma title_of_length_20_is_not_selected :
  first_20_lines (py "Slides From Papers 2") = [py "Slides From Papers 2"]
  /\ List.length (py "Slides From Papers 2") = 20%nat
  /\ title_candidate_20_to_199 basic_latin (py "Slides From Papers 2") = true
  /\ extract_paper_metadata basic_latin (py "Slides From Papers 2") = Returns [].
Proof. vm_compute. repeat split. Qed.

(** ** The sections *)

Lemma flat_map_seq_shift {A : Type} (f : nat -> list A) (n : nat) :
  forall a, flat_map f (seq (S a) n) = flat_map (fun i => f (S i)) (seq a n).
Proof.
  induction n as [|n IH]; intros a; [reflexivity|].
  simpl. rewrite IH. reflexivity.
Qed.

Lemma inner_sections_cons (text : str) (b b' : nat * str) (bs : list (nat * str)) :
  inner_sections text (b :: b' :: bs)
  = (if (100 <? List.length (strip (slice text (fst b) (fst b'))))%nat
     then [Section_ (snd b) (strip (slice text (fst b) (fst b')))] else [])
    ++ inner_sections text (b' :: bs).
Proof.
  unfold inner_sections.
  replace (List.length (b :: b' :: bs) - 1)%nat with (S (List.length (b' :: bs) - 1))
    by (simpl; lia).
  cbn [seq flat_map]. rewrite flat_map_seq_shift. reflexivity.
Qed.

Lemma last_section_cons (text : str) (b b' : nat * str) (bs : list (nat * str)) :
  last_section text (b :: b' :: bs) = last_section text (b' :: bs).
Proof. reflexivity. Qed.

(** The two loops of [split_into_sections] keep, of the candidate
    sections, those whose content is longer than 100 characters. *)
Lemma sections_of_breaks (text : str) (breaks : list (nat * str)) :
  inner_sections text breaks ++ last_section text breaks
  = filter (fun s => (100 <? List.length (content s))%nat)
      (candidate_sections text breaks).
Proof.
  induction breaks as [|[start_pos heading] more IH]; [reflexivity|].
  destruct more as [|[next_pos heading'] more].
  - cbn [candidate_sections filter content]. unfold inner_sections, last_section.
    cbn [List.length Nat.sub seq flat_map app last fst snd].
    destruct (100 <? List.length (strip (skipn start_pos text)))%nat; reflexivity.
  - rewrite inner_sections_cons, last_section_cons, <- app_assoc, IH.
    cbn [candidate_sections filter content fst snd].
    destruct (100 <? List.length (strip (slice text start_pos next_pos)))%nat;
      reflexivity.
Qed.

(** C6, amended: [split_into_sections] returns, of the candidate
    sections the sorted boundaries give, exactly those whose trimmed
    content is longer than 100 characters, in their order; a candidate
    whose trimmed content has 100 characters or fewer, exactly 100
    included, is dropped. *)
Theorem split_into_sections_keeps_longer_than_100 (U : unicode) (text : str) :
  exists breaks kept,
    section_breaks U text = Returns breaks
    /\ split_into_sections U text = Returns kept
    /\ kept = filter (fun s => (100 <? List.length (content s))%nat)
                (candidate_sections text breaks)
    /\ (forall s, In s kept <->
                  In s (candidate_sections text breaks)
                  /\ (100 < List.length (content s))%nat).
Proof.
  destruct (split_into_sections_returns U text) as [breaks [Hb Hs]].
  exists breaks. eexists. split; [exact Hb|]. split; [exact Hs|].
  rewrite sections_of_breaks. split; [reflexivity|].
  intros s. rewrite filter_In, Nat.ltb_lt. reflexivity.
Qed.

(** C6 as worded fails at length 100: a text of 100 characters and no
    heading is one candidate section, whose trimmed content has exactly
    100 characters, and [split_into_sections] returns no section. *)
Lemma section_of_length_100_is_dropped :
  section_breaks basic_latin (repeat 120 100) = Returns [(0%nat, start_title)]
  /\ candidate_sections (repeat 120 100) [(0%nat, start_title)]
     = [Section_ start_title (repeat 120 100)]
  /\ List.length (strip (repeat 120 100)) = 100%nat
  /\ split_into_sections basic_latin (repeat 120 100) = Returns [].
Proof. vm_compute. repeat split. Qed.

(** ** Texts of the Basic Latin block *)

Lemma exact_on_basic_latin (U : unicode) :
  basic_latin_exact U -> U = on_basic_latin U.
Proof.
  intros [Hd [Hl Hc]]. destruct U as [d l c]. unfold on_basic_latin.
  cbn [is_decimal lower ci_eq] in *. f_equal.
  - extensionality x. destruct (is_ascii x) eqn:E; [apply Hd, E | reflexivity].
  - extensionality s. destruct (forallb is_ascii s) eqn:E; [apply Hl, E | reflexivity].
  - extensionality x. extensionality y.
    destruct (is_ascii x) eqn:Ex; [|reflexivity].
    destruct (is_ascii y) eqn:Ey; [|reflexivity].
    apply Hc; assumption.
Qed.

Lemma basic_latin_is_exact : basic_latin_exact basic_latin.
Proof. repeat split. Qed.

(** C2, where the program departs from it: on the input of scenario 1,
    taken as it is or normalized first, [split_into_sections] returns two
    sections, and the second is titled "2. Conclusion"; but the first,
    which holds the heading "1. Introduction" and its body, is titled with
    the word for "start", the title of the text before the first heading.
    Each pattern asks for a newline before a heading, and the first line
    has none: the same text after a newline gives the two titles the
    claim names. *)
Theorem scenario_1_sections (U : unicode) :
  basic_latin_exact U ->
  split_into_sections U scenario_1
  = Returns [Section_ start_title scenario_1_introduction;
             Section_ (py "2. Conclusion") scenario_1_conclusion]
  /\ split_into_sections U (clean_text U scenario_1)
     = Returns [Section_ start_title scenario_1_introduction;
                Section_ (py "2. Conclusion") scenario_1_conclusion]
  /\ split_into_sections U (NL :: scenario_1)
     = Returns [Section_ (py "1. Introduction") scenario_1_introduction;
                Section_ (py "2. Conclusion") scenario_1_conclusion].
Proof.
  intros H. rewrite (exact_on_basic_latin U H). vm_compute. repeat split.
Qed.

Lemma scenario_1_sections_witness :
  split_into_sections basic_latin scenario_1
  = Returns [Section_ start_title scenario_1_introduction;
             Section_ (py "2. Conclusion") scenario_1_conclusion].
Proof.
  exact (proj1 (scenario_1_sections basic_latin basic_latin_is_exact)).
Defined.

(** On the input of scenario 1 the titles of the sections returned are not
    "1. Introduction" and "2. Conclusion". *)
Lemma scenario_1_first_title_is_not_the_heading :
  ~ exists secs,
      split_into_sections basic_latin scenario_1 = Returns secs
      /\ map title secs = [py "1. Introduction"; py "2. Conclusion"].
Proof.
  intros [secs [E T]]. vm_compute in E. injection E as <-.
  vm_compute in T. discriminate T.
Qed.

(** C1, where the program departs from it: three blank lines between two
    paragraphs are not collapsed to one blank line, they are removed with
    every other blank line, and the paragraph boundary is lost to
    [split_into_paragraphs]. *)
Theorem clean_text_loses_paragraph_boundary (U : unicode) :
  basic_latin_exact U ->
  clean_text U (py "First paragraph.\n\n\n\nSecond paragraph.")
  = py "First paragraph.\nSecond paragraph."
  /\ split [NL; NL] (clean_text U (py "First paragraph.\n\n\n\nSecond paragraph."))
     = [py "First paragraph.\nSecond paragraph."].
Proof.
  intros H. rewrite (exact_on_basic_latin U H). vm_compute. split; reflexivity.
Qed.

Lemma clean_text_loses_paragraph_boundary_witness :
  clean_text basic_latin (py "First paragraph.\n\n\n\nSecond paragraph.")
  = py "First paragraph.\nSecond paragraph.".
Proof.
  exact (proj1 (clean_text_loses_paragraph_boundary basic_latin basic_latin_is_exact)).
Defined.

(** C3, where the program departs from it: of two page-number lines in a
    row the first pass removes only the first, the newline between them
    being part of the first match; a second pass removes the other. *)
Theorem clean_text_twice_differs (U : unicode) :
  basic_latin_exact U ->
  clean_text U (py "Results\n12\n13\nDiscussion") = py "Results\n13\nDiscussion"
  /\ clean_text U (clean_text U (py "Results\n12\n13\nDiscussion"))
     = py "Results\nDiscussion"
  /\ clean_text U (clean_text U (py "Results\n12\n13\nDiscussion"))
     <> clean_text U (py "Results\n12\n13\nDiscussion").
Proof.
  intros H. rewrite (exact_on_basic_latin U H). vm_compute.
  repeat split. discriminate.
Qed.

Lemma clean_text_twice_differs_witness :
  clean_text basic_latin (clean_text basic_latin (py "Results\n12\n13\nDiscussion"))
  <> clean_text basic_latin (py "Results\n12\n13\nDiscussion").
Proof.
  exact (proj2 (proj2 (clean_text_twice_differs basic_latin basic_latin_is_exact))).
Defined.

(** ** The empty text *)

(** From a text that is not empty [process_single_pdf] assembles a
    document, made of what the four functions return, and hands it to
    [save_processed_data]: it returns the document when that returns, and
    raises what that raises. *)
Lemma process_single_pdf_some (U : unicode) (save : saver) (name now raw_text : str) :
  raw_text <> [] ->
  exists meta secs,
    extract_paper_metadata U (clean_text U raw_text) = Returns meta
    /\ split_into_sections U (clean_text U raw_text) = Returns secs
    /\ process_single_pdf U save name now raw_text
       = (_ <- save (assembled U name now raw_text meta secs) (filename_base name) ;;
          Returns (Some (assembled U name now raw_text meta secs))).
Proof.
  intros H.
  destruct (extract_paper_metadata_returns U (clean_text U raw_text)) as [meta [Em _]].
  destruct (split_into_sections_returns U (clean_text U raw_text)) as [breaks [_ Es]].
  exists meta. eexists. split; [exact Em|]. split; [exact Es|].
  unfold process_single_pdf. destruct raw_text; [congruence|].
  cbn [is_empty]. rewrite Em, Es. reflexivity.
Qed.



(** ** A second pass of the normalizer *)

Lemma infix_refl (s : str) : infix s s.
Proof. exists [], []. rewrite app_nil_r. reflexivity. Qed.

Lemma infix_trans (l m s : str) : infix l m -> infix m s -> infix l s.
Proof.
  intros [a [b ->]] [a' [b' ->]]. exists (a' ++ a), (b ++ b').
  rewrite <- !app_assoc. reflexivity.
Qed.

Lemma infix_cons (l s : str) (c : char) : infix l s -> infix l (c :: s).
Proof. intros [a [b ->]]. exists (c :: a), b. reflexivity. Qed.

Lemma dropwhile_suffix (p : char -> bool) (s : str) :
  exists a, s = a ++ dropwhile p s.
Proof.
  induction s as [|c s [a IH]]; simpl.
  - exists []. reflexivity.
  - destruct (p c).
    + exists (c :: a). simpl. rewrite <- IH. reflexivity.
    + exists []. reflexivity.
Qed.

Lemma strip_infix (s : str) : infix (strip s) s.
Proof.
  unfold strip, rstrip, lstrip.
  destruct (dropwhile_suffix is_space s) as [a Ha].
  destruct (dropwhile_suffix is_space (rev (dropwhile is_space s))) as [b Hb].
  exists a, (rev b). rewrite Ha at 1. f_equal.
  rewrite <- rev_app_distr, <- Hb, rev_involutive. reflexivity.
Qed.

(** The first line [splitlines] gives starts the text, and the others
    are pieces of it. *)
Lemma splitlines_pieces_upto (n : nat) :
  forall s, (List.length s <= n)%nat ->
    match splitlines s with
    | [] => True
    | l :: ls => (exists b, s = l ++ b) /\ Forall (fun l' => infix l' s) ls
    end.
Proof.
  induction n as [|n IH]; intros s Hn.
  - destruct s; [exact I | simpl in Hn; lia].
  - destruct s as [|c s]; [exact I|]. simpl in Hn. cbn [splitlines].
    destruct (is_linebreak c).
    + split; [exists (c :: s); reflexivity|].
      assert (Hrest : forall t, (List.length t <= n)%nat -> infix t s ->
                      Forall (fun l' => infix l' (c :: s)) (splitlines t)).
      { intros t Ht Hts. specialize (IH t Ht).
        destruct (splitlines t) as [|l ls]; [constructor|].
        destruct IH as [[b Hb] Hls]. constructor.
        - apply infix_cons. apply (infix_trans l t s); [|exact Hts].
          exists [], b. exact Hb.
        - eapply Forall_impl; [|exact Hls]. intros l' Hl'.
          apply infix_cons. exact (infix_trans l' t s Hl' Hts). }
      destruct s as [|d s']; [constructor|]. simpl in Hn.
      destruct ((c =? CR) && (d =? NL)).
      * apply Hrest; [lia|]. exists [d], []. rewrite app_nil_r. reflexivity.
      * apply Hrest; [simpl; lia | apply infix_refl].
    + specialize (IH s ltac:(lia)). destruct (splitlines s) as [|l ls].
      * split; [exists s; reflexivity | constructor].
      * destruct IH as [[b Hb] Hls]. split.
        -- exists b. simpl. rewrite <- Hb. reflexivity.
        -- eapply Forall_impl; [|exact Hls]. intros l' Hl'. apply infix_cons, Hl'.
Qed.

Lemma splitlines_infix (s : str) : Forall (fun l => infix l s) (splitlines s).
Proof.
  pose proof (splitlines_pieces_upto (List.length s) s (le_n _)) as H.
  destruct (splitlines s) as [|l ls]; [constructor|].
  destruct H as [[b Hb] Hls]. constructor; [|exact Hls].
  exists [], b. exact Hb.
Qed.

Lemma single_spaced_app (a b : str) :
  single_spaced (a ++ b) = true -> single_spaced a = true /\ single_spaced b = true.
Proof.
  induction a as [|c a IH]; intros H; [split; [reflexivity | exact H]|].
  cbn [app single_spaced] in H |- *.
  apply andb_true_iff in H. destruct H as [H1 H2].
  apply andb_true_iff in H1. destruct H1 as [H0 H1].
  destruct (IH H2) as [Ha Hb]. split; [|exact Hb].
  rewrite H0, Ha, andb_true_r. cbn [andb].
  destruct (c =? 32); [|reflexivity]. cbn [andb] in H1 |- *.
  destruct a as [|d a]; [reflexivity | exact H1].
Qed.

Lemma single_spaced_infix (l s : str) :
  infix l s -> single_spaced s = true -> single_spaced l = true.
Proof.
  intros [a [b ->]] H. apply single_spaced_app in H. destruct H as [_ H].
  apply single_spaced_app in H. tauto.
Qed.

Lemma single_spaced_lines (a b : str) :
  single_spaced a = true -> single_spaced b = true ->
  single_spaced (a ++ NL :: b) = true.
Proof.
  intros Ha Hb. induction a as [|c a IH].
  - cbn [app single_spaced]. rewrite Hb. reflexivity.
  - cbn [app single_spaced] in Ha |- *.
    apply andb_true_iff in Ha. destruct Ha as [H1 H2].
    apply andb_true_iff in H1. destruct H1 as [H0 H1].
    rewrite H0, (IH H2), andb_true_r. cbn [andb].
    destruct (c =? 32); [|reflexivity]. cbn [andb] in H1 |- *.
    destruct a as [|d a]; [reflexivity | exact H1].
Qed.

Lemma single_spaced_join (ls : list str) :
  Forall (fun l => single_spaced l = true) ls -> single_spaced (join [NL] ls) = true.
Proof.
  induction 1 as [|l ls Hl Hls IH]; [reflexivity|].
  destruct ls as [|l' ls']; [exact Hl|].
  change (join [NL] (l :: l' :: ls')) with (l ++ NL :: join [NL] (l' :: ls')).
  apply single_spaced_lines; assumption.
Qed.

(** The last statement of [clean_text] keeps a text single spaced. *)
Lemma join_stripped_lines_single_spaced (text : str) :
  single_spaced text = true -> single_spaced (join_stripped_lines text) = true.
Proof.
  intros H. unfold join_stripped_lines. apply single_spaced_join.
  apply Forall_forall. intros l Hl.
  apply in_map_iff in Hl. destruct Hl as [x [<- Hx]].
  apply filter_In in Hx. destruct Hx as [Hx _].
  pose proof (splitlines_infix text) as Hall. rewrite Forall_forall in Hall.
  apply (single_spaced_infix (strip x) text); [|exact H].
  exact (infix_trans _ _ _ (strip_infix x) (Hall x Hx)).
Qed.

(** One space for every run of blanks leaves a single spaced text. *)
Lemma squeeze_single_spaced (s : str) :
  forall in_run,
    single_spaced (squeeze in_run s) = true
    /\ (in_run = true -> head_not (fun c => c =? 32) (squeeze in_run s)).
Proof.
  induction s as [|c s IH]; intros in_run; [split; [reflexivity | intros _; exact I]|].
  cbn [squeeze]. destruct (is_blank c) eqn:Ec.
  - destruct in_run; [apply IH|]. split; [|discriminate].
    destruct (IH true) as [H1 H2]. specialize (H2 eq_refl).
    cbn [single_spaced]. rewrite H1. cbn [N.eqb Pos.eqb negb andb].
    destruct (squeeze true s) as [|d t]; [reflexivity|].
    cbn [head_not] in H2. rewrite H2. reflexivity.
  - unfold is_blank in Ec. apply orb_false_iff in Ec. destruct Ec as [E1 E2].
    destruct (IH false) as [H1 _]. split.
    + cbn [single_spaced]. rewrite E1, E2, H1. reflexivity.
    + intros _. exact E1.
Qed.

(** A single spaced text has no run of blanks to squeeze. *)
Lemma squeeze_fixed (s : str) :
  single_spaced s = true ->
  squeeze false s = s /\ (head_not is_blank s -> squeeze true s = s).
Proof.
  induction s as [|c s IH]; intros H; [split; reflexivity|].
  cbn [single_spaced] in H.
  apply andb_true_iff in H. destruct H as [H1 H2].
  apply andb_true_iff in H1. destruct H1 as [H0 H1].
  destruct (IH H2) as [Ha Hb]. apply negb_true_iff in H0.
  assert (A : squeeze false (c :: s) = c :: s).
  { cbn [squeeze]. unfold is_blank. rewrite H0, orb_false_r.
    destruct (c =? 32) eqn:E32; [|rewrite Ha; reflexivity].
    apply N.eqb_eq in E32. subst c. f_equal. apply Hb.
    destruct s as [|d s]; [exact I|]. cbn [head_not]. unfold is_blank.
    cbn [andb negb] in H1. apply negb_true_iff in H1. rewrite H1. cbn [orb].
    cbn [single_spaced] in H2. apply andb_true_iff in H2. destruct H2 as [H2 _].
    apply andb_true_iff in H2. destruct H2 as [H2 _].
    apply negb_true_iff in H2. exact H2. }
  split; [exact A|]. intros Hh. cbn [head_not] in Hh.
  cbn [squeeze]. rewrite Hh, Ha. reflexivity.
Qed.

Lemma text_after_newlines_line (l : str) :
  ~ In NL l -> text_after_newlines l = true.
Proof.
  induction l as [|c l IH]; intros H; [reflexivity|].
  cbn [text_after_newlines]. rewrite IH by (intros Hin; apply H; right; exact Hin).
  destruct (N.eqb_spec c NL) as [E|E]; [|reflexivity].
  exfalso. apply H. left. exact E.
Qed.

Lemma text_after_newlines_lines (l r : str) :
  ~ In NL l -> r <> [] -> head_not is_space r -> text_after_newlines r = true ->
  text_after_newlines (l ++ NL :: r) = true.
Proof.
  intros Hl Hne Hh Hr. induction l as [|c l IH].
  - cbn [app text_after_newlines]. rewrite Hr.
    destruct r as [|d r]; [congruence|]. cbn [head_not] in Hh. rewrite Hh.
    rewrite orb_true_r. reflexivity.
  - cbn [app text_after_newlines].
    rewrite IH by (intros Hin; apply Hl; right; exact Hin).
    destruct (N.eqb_spec c NL) as [E|E]; [|reflexivity].
    exfalso. apply Hl. left. exact E.
Qed.

(** In lines joined by newlines, every newline is followed by the first
    character of a line. *)
Lemma text_after_newlines_join (ls : list str) :
  Forall (fun l => ~ In NL l /\ l <> [] /\ head_not is_space l) ls ->
  text_after_newlines (join [NL] ls) = true.
Proof.
  induction 1 as [|l ls [Hl [Hne Hh]] Hls IH]; [reflexivity|].
  destruct ls as [|l' ls']; [apply text_after_newlines_line, Hl|].
  change (join [NL] (l :: l' :: ls')) with (l ++ NL :: join [NL] (l' :: ls')).
  inversion Hls as [|? ? [_ [Hne' Hh']] _]; subst.
  destruct l' as [|c t]; [congruence|].
  apply text_after_newlines_lines; [exact Hl | | | exact IH].
  - destruct ls'; discriminate.
  - destruct ls'; exact Hh'.
Qed.

Section SecondPass.

Variable U : unicode.

(** Where a pattern matches nowhere, [re.sub] returns the text. *)
Lemma sub_go_no_match (f : flags) (r : regex) (repl : list ritem) (text rest : str) :
  forall pos,
    search_from U f r pos rest = None ->
    sub_go U f r repl text 0 pos rest = rest.
Proof.
  induction rest as [|c rest IH]; intros pos H; cbn [search_from] in H;
    cbn [sub_go]; unfold matches_here;
    destruct (match_at U f r pos _) as [m|]; try discriminate; [reflexivity|].
  cbn [flat_map covered fold_right app]. rewrite (IH _ H). reflexivity.
Qed.

Lemma re_sub_no_match (f : flags) (r : regex) (repl : list ritem) (text : str) :
  re_search U f r text = None -> re_sub U f r repl text = text.
Proof. apply sub_go_no_match. Qed.

Lemma cset_blank (c : char) :
  cset_matches U no_flags (Cls false [I_chr 32; I_chr 9]) c = is_blank c.
Proof.
  unfold is_blank. simpl. destruct (c =? 32), (c =? 9); reflexivity.
Qed.

(** r"[ \t]+" takes the whole run of blanks. *)
Lemma rep_blanks (rest : str) :
  forall lo pos,
    rep U no_flags (Cls false [I_chr 32; I_chr 9]) true accept lo pos rest []
    = if (lo <=? blank_run rest)%nat
      then Some ((pos + blank_run rest)%nat, []) else None.
Proof.
  induction rest as [|c rest IH]; intros lo pos.
  - simpl. destruct lo; [|reflexivity]. unfold accept. rewrite Nat.add_0_r. reflexivity.
  - cbn [rep blank_run]. rewrite cset_blank. destruct (is_blank c).
    + rewrite IH. rewrite Nat.add_succ_r.
      destruct lo as [|lo]; [reflexivity|]. cbn [pred]. cbn [Nat.leb].
      destruct (lo <=? blank_run rest)%nat; reflexivity.
    + destruct lo; [|reflexivity]. unfold accept. rewrite Nat.add_0_r. reflexivity.
Qed.

Lemma match_at_blanks (pos : nat) (rest : str) :
  match_at U no_flags re_blanks pos rest
  = match blank_run rest with
    | O => None
    | S n => Some (Match pos (pos + S n) [])
    end.
Proof.
  unfold match_at, re_blanks. cbn [plus rmatch]. rewrite rep_blanks.
  destruct (blank_run rest); reflexivity.
Qed.

(** What the substitution of r"[ \t]+" by a space gives. *)
Lemma sub_go_blanks (text rest : str) :
  (forall pos, sub_go U no_flags re_blanks [R_lit [32]] text 0 pos rest
               = squeeze false rest)
  /\ (forall pos, sub_go U no_flags re_blanks [R_lit [32]] text (blank_run rest) pos rest
                  = squeeze true rest).
Proof.
  induction rest as [|c rest [IHa IHb]].
  - split; intros pos; reflexivity.
  - assert (A : forall pos, sub_go U no_flags re_blanks [R_lit [32]] text 0 pos (c :: rest)
                            = squeeze false (c :: rest)).
    { intros pos. cbn [sub_go squeeze]. unfold matches_here.
      rewrite match_at_blanks. cbn [blank_run]. destruct (is_blank c).
      - cbn [m_end]. replace (Nat.eqb (pos + S (blank_run rest)) pos) with false
          by (symmetry; apply Nat.eqb_neq; lia).
        cbn [flat_map expand covered fold_right m_end app].
        replace (Nat.max (pos + S (blank_run rest) - pos) 0) with (S (blank_run rest))
          by lia.
        rewrite IHb. reflexivity.
      - cbn [flat_map covered fold_right app]. rewrite IHa. reflexivity. }
    split; [exact A|]. intros pos. cbn [blank_run].
    destruct (is_blank c) eqn:Ec.
    + cbn [sub_go squeeze]. rewrite Ec. apply IHb.
    + rewrite A. cbn [squeeze]. rewrite Ec. reflexivity.
Qed.

Lemma re_sub_blanks (text : str) :
  re_sub U no_flags re_blanks [R_lit [32]] text = squeeze false text.
Proof. apply sub_go_blanks. Qed.

(** r"\n\s*\n" matches nowhere in a text whose newlines are each followed
    by a character that is not white space. *)
Lemma blank_lines_no_match (rest : str) :
  text_after_newlines rest = true ->
  forall pos, search_from U no_flags re_blank_lines pos rest = None.
Proof.
  induction rest as [|c rest IH]; intros H pos; cbn [search_from].
  - reflexivity.
  - cbn [text_after_newlines] in H. apply andb_true_iff in H. destruct H as [H1 H2].
    rewrite (IH H2).
    assert (E : match_at U no_flags re_blank_lines pos (c :: rest) = None).
    { destruct (match_at U no_flags re_blank_lines pos (c :: rest)) as [m|] eqn:E;
        [|reflexivity].
      exfalso. assert (HS : isSome (match_at U no_flags re_blank_lines pos (c :: rest))
                           = true) by (rewrite E; reflexivity).
      rewrite match_at_isSome in HS. unfold re_blank_lines in HS.
      cbn [seqs rmatch chr star] in HS. rewrite cset_chr in HS.
      destruct (c =? NL); [|discriminate HS]. cbn [negb orb] in H1.
      destruct rest as [|d rest]; [discriminate H1|].
      apply negb_true_iff in H1.
      rewrite rep_isSome_cons in HS.
      replace (cset_matches U no_flags space d) with false in HS
        by (simpl; rewrite H1; reflexivity).
      cbv beta iota in HS. rewrite cset_chr in HS.
      destruct (N.eqb_spec d NL) as [Ed|Ed]; [|discriminate HS].
      subst d. discriminate H1. }
    rewrite E. reflexivity.
Qed.

(** What [clean_text] returns is its own last statement's fixed point. *)
Lemma join_stripped_lines_fixed (text : str) :
  join_stripped_lines (join_stripped_lines text) = join_stripped_lines text.
Proof.
  unfold join_stripped_lines at 1 3.
  pose proof (stripped_lines_shape text) as H.
  set (ls := map strip _) in *.
  change (join_stripped_lines text) with (join [NL] ls).
  rewrite splitlines_join
    by (eapply Forall_impl; [|exact H]; intros l [H1 [H2 _]]; split; assumption).
  f_equal. clearbody ls. induction H as [|l ls [_ [Hne Hs]] _ IH]; [reflexivity|].
  cbn [filter]. rewrite Hs. destruct l as [|c l]; [congruence|].
  cbn [is_empty negb map]. rewrite Hs, IH. reflexivity.
Qed.

End SecondPass.

(** X1: where, in the normalized text, no page-number line, no "Page N"
    line and no hyphenated line break is left for the three removal
    patterns to match, normalizing again changes nothing. *)
Theorem clean_text_idempotent_once_settled (U : unicode) (text : str) :
  re_search U no_flags re_number_line (clean_text U text) = None ->
  re_search U no_flags re_page_line (clean_text U text) = None ->
  re_search U no_flags re_hyphen_break (clean_text U text) = None ->
  clean_text U (clean_text U text) = clean_text U text.
Proof.
  intros H1 H2 H3.
  assert (Hy : exists t, single_spaced t = true
                         /\ clean_text U text = join_stripped_lines t).
  { unfold clean_text. destruct (is_empty text).
    - exists []. split; reflexivity.
    - eexists. split; [|reflexivity].
      rewrite re_sub_blanks. apply squeeze_single_spaced. }
  destruct Hy as [t [Ht Ey]].
  set (y := clean_text U text) in *. clearbody y.
  unfold clean_text at 1. destruct (is_empty y) eqn:Eempty.
  { destruct y; [reflexivity | discriminate Eempty]. }
  rewrite (re_sub_no_match U _ _ _ _ H1).
  rewrite (re_sub_no_match U _ _ _ _ H2).
  rewrite (re_sub_no_match U _ _ _ _ H3).
  assert (H4 : re_search U no_flags re_blank_lines y = None).
  { apply blank_lines_no_match. rewrite Ey. unfold join_stripped_lines.
    apply text_after_newlines_join.
    pose proof (stripped_lines_shape t) as Hs.
    eapply Forall_impl; [|exact Hs]. intros l [Hl [Hne Hst]].
    split; [|split; [exact Hne|]].
    - intros Hin. specialize (Hl NL Hin). discriminate.
    - rewrite <- Hst. apply strip_head. }
  rewrite (re_sub_no_match U _ _ _ _ H4).
  rewrite re_sub_blanks.
  assert (Hss : single_spaced y = true).
  { rewrite Ey. apply join_stripped_lines_single_spaced, Ht. }
  rewrite (proj1 (squeeze_fixed y Hss)).
  rewrite Ey. apply join_stripped_lines_fixed.
Qed.

Lemma clean_text_idempotent_once_settled_witness :
  clean_text basic_latin (clean_text basic_latin scenario_1)
  = clean_text basic_latin scenario_1.
Proof.
  apply (clean_text_idempotent_once_settled basic_latin scenario_1);
    vm_compute; reflexivity.
Defined.

(** ** The other scenarios of the specification *)

(** Scenario 2: the abstract runs from after "Abstract:" to the blank
    line, trimmed. *)
Theorem scenario_2_abstract (U : unicode) :
  basic_latin_exact U ->
  exists d,
    extract_paper_metadata U
      (py "Abstract: This paper studies X.\n\nIntroduction\nWe begin with the problem.")
    = Returns d
    /\ dict_get "abstract" d = Some (py "This paper studies X.").
Proof.
  intros H. rewrite (exact_on_basic_latin U H). eexists. split.
  - vm_compute. reflexivity.
  - vm_compute. reflexivity.
Qed.

Lemma scenario_2_abstract_witness :
  exists d,
    extract_paper_metadata basic_latin
      (py "Abstract: This paper studies X.\n\nIntroduction\nWe begin with the problem.")
    = Returns d
    /\ dict_get "abstract" d = Some (py "This paper studies X.").
Proof. exact (scenario_2_abstract basic_latin basic_latin_is_exact). Defined.

(** Scenario 3: of the three blocks only the real paragraph is
    emitted; "Page 5" and "42" are left out. *)
Theorem scenario_3_paragraphs (U : unicode) :
  basic_latin_exact U ->
  split_into_paragraphs U
    (py "Page 5\n\nSome real paragraph text that is long enough to pass the fifty character minimum length filter.\n\n42\n")
    default_min_length
  = [py "Some real paragraph text that is long enough to pass the fifty character minimum length filter."].
Proof.
  intros H. rewrite (exact_on_basic_latin U H). vm_compute. reflexivity.
Qed.

Lemma scenario_3_paragraphs_witness :
  split_into_paragraphs basic_latin
    (py "Page 5\n\nSome real paragraph text that is long enough to pass the fifty character minimum length filter.\n\n42\n")
    default_min_length
  = [py "Some real paragraph text that is long enough to pass the fifty character minimum length filter."].
Proof. exact (scenario_3_paragraphs basic_latin basic_latin_is_exact). Defined.

(** Scenario 5: a word hyphenated at a line end is rejoined, without
    the hyphen and the newline. *)
Theorem scenario_5_hyphen (U : unicode) :
  basic_latin_exact U ->
  clean_text U (py "co-\noperation") = py "cooperation".
Proof.
  intros H. rewrite (exact_on_basic_latin U H). vm_compute. reflexivity.
Qed.

Lemma scenario_5_hyphen_witness :
  clean_text basic_latin (py "co-\noperation") = py "cooperation".
Proof. exact (scenario_5_hyphen basic_latin basic_latin_is_exact). Defined.

(** ** The order of the boundaries *)

Lemma insert_break_ascending (b : nat * str) (bs : list (nat * str)) :
  ascending bs -> ascending (insert_break b bs).
Proof.
  induction bs as [|b' bs IH]; intros H; [simpl; auto|].
  cbn [insert_break]. destruct (Nat.leb_spec (fst b) (fst b')) as [L|L].
  - cbn [ascending] in H |- *. split; [exact L | exact H].
  - destruct H as [H1 H2]. specialize (IH H2).
    cbn [ascending]. split; [|exact IH].
    destruct bs as [|b'' bs]; cbn [insert_break].
    + lia.
    + destruct (Nat.leb_spec (fst b) (fst b'')); [lia | exact H1].
Qed.

Lemma sort_breaks_ascending (bs : list (nat * str)) : ascending (sort_breaks bs).
Proof.
  induction bs as [|b bs IH]; [exact I|].
  cbn [sort_breaks]. apply insert_break_ascending, IH.
Qed.

Lemma insert_break_In (b x : nat * str) (bs : list (nat * str)) :
  In x (insert_break b bs) <-> x = b \/ In x bs.
Proof.
  induction bs as [|b' bs IH]; cbn [insert_break].
  - simpl. intuition congruence.
  - destruct (fst b <=? fst b')%nat; simpl; [intuition congruence|].
    rewrite IH. intuition congruence.
Qed.

Lemma sort_breaks_In (x : nat * str) (bs : list (nat * str)) :
  In x (sort_breaks bs) <-> In x bs.
Proof.
  induction bs as [|b bs IH]; [reflexivity|].
  cbn [sort_breaks]. rewrite insert_break_In, IH. simpl. intuition congruence.
Qed.

(** X5: the sorted boundaries start with the boundary of the text's
    start, are in the order of the text, and are the boundaries found. *)
Theorem section_breaks_in_text_order (U : unicode) (text : str) :
  exists found others,
    scan_patterns U text section_patterns [(0%nat, start_title)] = Returns found
    /\ section_breaks U text = Returns ((0%nat, start_title) :: others)
    /\ ascending ((0%nat, start_title) :: others)
    /\ (forall b, In b ((0%nat, start_title) :: others) <-> In b found).
Proof.
  destruct (scan_patterns_returns U text section_patterns
              (section_patterns_group U icase) [(0%nat, start_title)]) as [found Hf].
  assert (Hhead : exists more, found = (0%nat, start_title) :: more).
  { revert Hf. generalize section_patterns. intros patterns.
    assert (G : forall ms bs more found',
               add_breaks text ms ((0%nat, start_title) :: more) = Returns found' ->
               bs = (0%nat, start_title) :: more ->
               exists more', found' = (0%nat, start_title) :: more').
    { induction ms as [|m ms IHm]; intros bs more found' H _; cbn [add_breaks] in H.
      - injection H as <-. eexists. reflexivity.
      - destruct (group_strip text m 1) as [g|e]; [|discriminate H]. cbn [bind] in H.
        destruct (List.length g <? 100)%nat.
        + exact (IHm _ _ _ H eq_refl).
        + exact (IHm _ _ _ H eq_refl). }
    generalize (@nil (nat * str)) as more. revert found.
    induction patterns as [|p ps IHp]; intros found more H; cbn [scan_patterns] in H.
    - injection H as <-. eexists. reflexivity.
    - destruct (add_breaks text (re_finditer U icase p text)
                  ((0%nat, start_title) :: more)) as [bs|e] eqn:E; [|discriminate H].
      cbn [bind] in H.
      destruct (G _ _ _ _ E eq_refl) as [more' ->].
      exact (IHp _ _ H). }
  destruct Hhead as [more ->].
  exists ((0%nat, start_title) :: more), (sort_breaks more).
  assert (Hs : sort_breaks ((0%nat, start_title) :: more)
               = (0%nat, start_title) :: sort_breaks more).
  { cbn [sort_breaks]. destruct (sort_breaks more); reflexivity. }
  split; [exact Hf|]. split; [|split].
  - unfold section_breaks. rewrite Hf. cbn [bind]. rewrite Hs. reflexivity.
  - rewrite <- Hs. apply sort_breaks_ascending.
  - intros b. rewrite <- Hs. apply sort_breaks_In.
Qed.

(** ** The paragraph filter drops nothing else *)

Section ParagraphConverse.

Variable U : unicode.

Lemma firstn_skipn_nil {A : Type} (n : nat) (l : list A) :
  skipn n l = [] -> firstn n l = l.
Proof.
  intros H. rewrite <- (firstn_skipn n l) at 2. rewrite H, app_nil_r. reflexivity.
Qed.

(** A match of [^s+$] on a block that does not end in white space takes
    the whole block. *)
Lemma whole_run_matched_inv (s : cset) (p : char -> bool) (block : str) :
  (forall c, cset_matches U no_flags s c = p c) ->
  head_not is_space (rev block) ->
  isSome (re_match U no_flags (seqs [Bol; plus s; Eol]) block) = true ->
  made_of p block = true.
Proof.
  intros Hs Hend H. unfold re_match in H. rewrite match_at_isSome in H.
  cbn [seqs plus rmatch Nat.eqb] in H. apply rep_isSome in H.
  destruct H as [n [[H1 H2] [H3 H4]]].
  rewrite (forallb_same _ p _ Hs) in H3.
  assert (E : skipn n block = []).
  { destruct (skipn n block) as [|c [|d more]] eqn:E; [reflexivity | | discriminate H4].
    exfalso. destruct (N.eqb_spec c NL) as [->|Hc]; [|discriminate H4].
    rewrite <- (firstn_skipn n block), E, rev_app_distr in Hend.
    discriminate Hend. }
  rewrite (firstn_skipn_nil n block E) in H3.
  unfold made_of. rewrite H3. destruct block; [simpl in H2; lia | reflexivity].
Qed.

Lemma page_marker_matched_inv (block : str) :
  isSome (re_match U no_flags re_page_prefix block) = true ->
  page_marker U block = true.
Proof.
  intros H. unfold re_match in H. rewrite match_at_isSome in H.
  cbn [re_page_prefix seqs rmatch Nat.eqb] in H.
  rewrite rmatch_lit in H by reflexivity.
  unfold page_marker. destruct (starts_with (py "Page ") block); [|discriminate H].
  change (List.length (py "Page ")) with 5%nat in H.
  cbn [plus rmatch andb] in H. apply rep_isSome in H.
  destruct H as [n [[H1 H2] [H3 _]]].
  destruct (skipn 5 block) as [|d more]; [simpl in H2; lia|].
  destruct n as [|n]; [lia|]. cbn [firstn forallb] in H3.
  apply andb_true_iff in H3. destruct H3 as [H3 _].
  rewrite cset_digit in H3. exact H3.
Qed.

(** On a trimmed block the three tests of the loop are the three kinds of
    noise. *)
Lemma noise_tests (block : str) :
  head_not is_space (rev block) ->
  isSome (re_match U no_flags re_only_digits block) = digits_only U block
  /\ isSome (re_match U no_flags re_page_prefix block) = page_marker U block
  /\ isSome (re_match U no_flags re_decoration block) = decoration_only U block.
Proof.
  intros Hend. split; [|split].
  - destruct (digits_only U block) eqn:E.
    + apply digits_only_matched, E.
    + destruct (isSome (re_match U no_flags re_only_digits block)) eqn:M; [|reflexivity].
      apply (whole_run_matched_inv digit (is_decimal U) block (cset_digit U) Hend) in M.
      unfold digits_only in E. congruence.
  - destruct (page_marker U block) eqn:E.
    + apply page_marker_matched, E.
    + destruct (isSome (re_match U no_flags re_page_prefix block)) eqn:M; [|reflexivity].
      apply page_marker_matched_inv in M. congruence.
  - destruct (decoration_only U block) eqn:E.
    + apply decoration_only_matched, E.
    + destruct (isSome (re_match U no_flags re_decoration block)) eqn:M; [|reflexivity].
      apply (whole_run_matched_inv decoration (is_decoration_char U) block
               (cset_decoration U) Hend) in M.
      unfold decoration_only in E. congruence.
Qed.

Lemma process_paragraphs_kept (min_length : Z) (blocks : list str) :
  process_paragraphs U min_length blocks
  = filter (paragraph_kept U min_length) (map strip blocks).
Proof.
  induction blocks as [|b blocks IH]; [reflexivity|].
  cbn [process_paragraphs map filter]. unfold paragraph_kept at 1.
  destruct (noise_tests (strip b) (strip_last b)) as [E1 [E2 E3]].
  rewrite E1, E2, E3, IH.
  destruct (Z.of_nat (List.length (strip b)) <? min_length)%Z; [reflexivity|].
  destruct (digits_only U (strip b)); [reflexivity|].
  destruct (page_marker U (strip b)); [reflexivity|].
  destruct (decoration_only U (strip b)); reflexivity.
Qed.

End ParagraphConverse.

(** X6: [split_into_paragraphs] returns the trimmed blocks of the text,
    in their order, but for those shorter than [min_length], made of
    digits only, beginning with "Page", a space and a digit, or made only
    of digits, white space, hyphens, periods and parentheses: it drops
    those and nothing else. *)
Theorem split_into_paragraphs_exactly (U : unicode) (text : str) (min_length : Z) :
  split_into_paragraphs U text min_length
  = filter (paragraph_kept U min_length) (map strip (split [NL; NL] text)).
Proof. apply process_paragraphs_kept. Qed.

(** ** The shape of a normalized text *)

Lemma squeeze_is_single_spaced (s : str) : single_spaced (squeeze false s) = true.
Proof. apply squeeze_single_spaced. Qed.

(** What [clean_text] returns is made of lines joined by newlines; each
    line is on one line, not empty, trimmed and single spaced. *)
Lemma clean_text_lines (U : unicode) (text : str) :
  exists ls,
    clean_text U text = join [NL] ls
    /\ Forall (fun l => one_line l /\ l <> [] /\ strip l = l
                        /\ single_spaced l = true) ls.
Proof.
  unfold clean_text. destruct (is_empty text).
  - exists []. split; [reflexivity | constructor].
  - eexists. split; [reflexivity|]. rewrite re_sub_blanks.
    set (t := squeeze false _).
    assert (Ht : single_spaced t = true) by apply squeeze_is_single_spaced.
    clearbody t. pose proof (stripped_lines_shape t) as Hs.
    apply Forall_forall. intros l Hl.
    rewrite Forall_forall in Hs. destruct (Hs l Hl) as [H1 [H2 H3]].
    repeat split; try assumption.
    apply in_map_iff in Hl. destruct Hl as [x [<- Hx]].
    apply filter_In in Hx. destruct Hx as [Hx _].
    pose proof (splitlines_infix t) as Hall. rewrite Forall_forall in Hall.
    apply (single_spaced_infix (strip x) t); [|exact Ht].
    exact (infix_trans _ _ _ (strip_infix x) (Hall x Hx)).
Qed.

Lemma join_nonempty (l : str) (ls : list str) : l <> [] -> join [NL] (l :: ls) <> [].
Proof.
  intros H. destruct l as [|c l]; [congruence|]. destruct ls; discriminate.
Qed.

Lemma last_of_later_line (p : char -> bool) (a r : str) (c : char) :
  r <> [] -> head_not p (rev r) -> head_not p (rev (a ++ c :: r)).
Proof.
  intros Hr H. rewrite rev_app_distr. cbn [rev]. rewrite <- app_assoc.
  destruct (rev r) as [|d t] eqn:E; [|exact H].
  exfalso. apply Hr. rewrite <- (rev_involutive r), E. reflexivity.
Qed.

(** Trimmed lines joined by newlines make a trimmed text. *)
Lemma join_ends (ls : list str) :
  Forall (fun l => l <> [] /\ strip l = l) ls ->
  head_not is_space (join [NL] ls) /\ head_not is_space (rev (join [NL] ls)).
Proof.
  induction 1 as [|l ls [Hne Hs] Hls [IH1 IH2]]; [split; exact I|].
  assert (Hh : head_not is_space l) by (rewrite <- Hs; apply strip_head).
  assert (Hl : head_not is_space (rev l)) by (rewrite <- Hs; apply strip_last).
  destruct ls as [|l' ls']; [split; assumption|].
  change (join [NL] (l :: l' :: ls')) with (l ++ NL :: join [NL] (l' :: ls')).
  split.
  - destruct l as [|c l]; [congruence | exact Hh].
  - inversion Hls as [|? ? [Hne' _] _]; subst.
    apply last_of_later_line; [apply join_nonempty, Hne' | exact IH2].
Qed.

Lemma clean_text_trimmed (U : unicode) (text : str) :
  strip (clean_text U text) = clean_text U text.
Proof.
  destruct (clean_text_lines U text) as [ls [E H]]. rewrite E.
  apply strip_fixed; apply join_ends;
    (eapply Forall_impl; [|exact H]; intros l Hl; cbv beta in Hl; tauto).
Qed.

Lemma clean_text_one_block (U : unicode) (text : str) :
  split [NL; NL] (clean_text U text) = [clean_text U text].
Proof.
  apply split_without_separator.
  destruct (clean_text_lines U text) as [ls [E H]]. rewrite E.
  apply join_lines_no_double_newline.
  eapply Forall_impl; [|exact H]. intros l [H1 [H2 _]]. split; [|exact H2].
  intros Hin. specialize (H1 NL Hin). discriminate.
Qed.

(** X2: whatever the text, what [clean_text] returns has no tab and no two
    spaces in a row, neither starts nor ends with white space, and each of
    its lines is trimmed and not empty. *)
Theorem clean_text_is_tidy (U : unicode) (text : str) :
  single_spaced (clean_text U text) = true
  /\ strip (clean_text U text) = clean_text U text
  /\ Forall (fun line => strip line = line /\ line <> [])
       (splitlines (clean_text U text)).
Proof.
  split; [|split; [apply clean_text_trimmed|]];
    destruct (clean_text_lines U text) as [ls [E H]]; rewrite E.
  - apply single_spaced_join. eapply Forall_impl; [|exact H]. intros l Hl. cbv beta in Hl. tauto.
  - rewrite splitlines_join.
    + eapply Forall_impl; [|exact H]. intros l Hl. cbv beta in Hl. tauto.
    + eapply Forall_impl; [|exact H]. intros l Hl. cbv beta in Hl. tauto.
Qed.

(** ** The paragraphs of a document *)

(** One block gives no paragraph or the block, trimmed. *)
Lemma process_paragraphs_one (U : unicode) (min_length : Z) (block : str) :
  process_paragraphs U min_length [block] = []
  \/ (process_paragraphs U min_length [block] = [strip block]
      /\ (min_length <= Z.of_nat (List.length (strip block)))%Z).
Proof.
  cbn [process_paragraphs].
  destruct (Z.ltb_spec (Z.of_nat (List.length (strip block))) min_length) as [L|L];
    [left; reflexivity|].
  destruct (isSome (re_match U no_flags re_only_digits (strip block))
            || isSome (re_match U no_flags re_page_prefix (strip block)));
    [left; reflexivity|].
  destruct (isSome (re_match U no_flags re_decoration (strip block)));
    [left; reflexivity|].
  right. split; [reflexivity | exact L].
Qed.

(** On a normalized text [split_into_paragraphs] finds no paragraph or
    one, the whole text. *)
Lemma paragraphs_of_clean_text (U : unicode) (text : str) (min_length : Z) :
  split_into_paragraphs U (clean_text U text) min_length = []
  \/ (split_into_paragraphs U (clean_text U text) min_length = [clean_text U text]
      /\ (min_length <= Z.of_nat (List.length (clean_text U text)))%Z).
Proof.
  unfold split_into_paragraphs. rewrite clean_text_one_block.
  destruct (process_paragraphs_one U min_length (clean_text U text)) as [H|[H L]].
  - left. exact H.
  - right. rewrite clean_text_trimmed in H, L. split; assumption.
Qed.


(** ** The sections of a text *)

Lemma slice_infix (s : str) (a b : nat) : infix (slice s a b) s.
Proof.
  unfold slice. exists (firstn a s), (skipn (b - a) (skipn a s)).
  rewrite firstn_skipn, firstn_skipn. reflexivity.
Qed.

Lemma skipn_infix (s : str) (a : nat) : infix (skipn a s) s.
Proof.
  exists (firstn a s), []. rewrite app_nil_r, firstn_skipn. reflexivity.
Qed.

Lemma add_breaks_headings (text : str) (matches : list rmatch_obj) :
  forall section_breaks found,
    Forall (fun b => heading_like text (snd b)) section_breaks ->
    add_breaks text matches section_breaks = Returns found ->
    Forall (fun b => heading_like text (snd b)) found.
Proof.
  induction matches as [|m more IH]; intros bs found Hbs H; cbn [add_breaks] in H.
  - injection H as <-. exact Hbs.
  - unfold group_strip, group in H.
    destruct (get_cap 1 (m_caps m)) as [[a b]|]; [|discriminate H]. cbn [bind] in H.
    refine (IH _ _ _ H).
    destruct (Nat.ltb_spec (List.length (strip (slice text a b))) 100) as [L|L];
      [|exact Hbs].
    apply Forall_app. split; [exact Hbs|]. constructor; [|constructor].
    cbn [snd]. split; [exact L|]. split; [apply strip_strip|]. right.
    exact (infix_trans _ _ _ (strip_infix _) (slice_infix text a b)).
Qed.

Lemma scan_patterns_headings (U : unicode) (text : str) (patterns : list regex) :
  forall section_breaks found,
    Forall (fun b => heading_like text (snd b)) section_breaks ->
    scan_patterns U text patterns section_breaks = Returns found ->
    Forall (fun b => heading_like text (snd b)) found.
Proof.
  induction patterns as [|p ps IH]; intros bs found Hbs H; cbn [scan_patterns] in H.
  - injection H as <-. exact Hbs.
  - destruct (add_breaks text (re_finditer U icase p text) bs) as [bs'|e] eqn:E;
      [|discriminate H].
    cbn [bind] in H.
    exact (IH _ _ (add_breaks_headings text _ _ _ Hbs E) H).
Qed.

Lemma start_title_heading (text : str) : heading_like text start_title.
Proof.
  split; [simpl; lia|]. split; [reflexivity | left; reflexivity].
Qed.

Lemma section_breaks_headings (U : unicode) (text : str) (breaks : list (nat * str)) :
  section_breaks U text = Returns breaks ->
  Forall (fun b => heading_like text (snd b)) breaks.
Proof.
  unfold section_breaks. intros H.
  destruct (scan_patterns U text section_patterns [(0%nat, start_title)])
    as [found|e] eqn:E; [|discriminate H].
  cbn [bind] in H. injection H as <-.
  assert (Hf : Forall (fun b => heading_like text (snd b)) found).
  { refine (scan_patterns_headings U text _ _ _ _ E).
    constructor; [apply start_title_heading | constructor]. }
  rewrite Forall_forall in Hf |- *. intros b Hb. apply Hf.
  apply sort_breaks_In. exact Hb.
Qed.

Lemma candidate_sections_shape (text : str) (breaks : list (nat * str)) :
  Forall (fun b => heading_like text (snd b)) breaks ->
  Forall (fun s => heading_like text (title s)
                   /\ strip (content s) = content s
                   /\ infix (content s) text)
    (candidate_sections text breaks).
Proof.
  induction 1 as [|[start_pos heading] more Hb Hmore IH]; [constructor|].
  cbn [candidate_sections]. cbn [snd] in Hb.
  destruct more as [|[next_pos heading'] more].
  - constructor; [|constructor]. cbn [title content].
    split; [exact Hb|]. split; [apply strip_strip|].
    exact (infix_trans _ _ _ (strip_infix _) (skipn_infix text start_pos)).
  - constructor; [|exact IH]. cbn [title content].
    split; [exact Hb|]. split; [apply strip_strip|].
    exact (infix_trans _ _ _ (strip_infix _) (slice_infix text start_pos next_pos)).
Qed.

(** X4: [split_into_sections] never raises, and every section it returns
    has a trimmed title shorter than 100 characters, which is the start
    title or a piece of the text, and a trimmed content longer than 100
    characters, which is a piece of the text. *)
Theorem sections_are_well_formed (U : unicode) (text : str) :
  exists secs,
    split_into_sections U text = Returns secs
    /\ Forall (fun s => heading_like text (title s)
                        /\ (100 < List.length (content s))%nat
                        /\ strip (content s) = content s
                        /\ infix (content s) text) secs.
Proof.
  destruct (split_into_sections_returns U text) as [breaks [Hb Hs]].
  eexists. split; [exact Hs|]. rewrite sections_of_breaks.
  pose proof (candidate_sections_shape text breaks
                (section_breaks_headings U text breaks Hb)) as Hc.
  apply Forall_forall. intros s Hin. apply filter_In in Hin.
  destruct Hin as [Hin Hlen]. rewrite Forall_forall in Hc.
  destruct (Hc s Hin) as [H1 [H2 H3]]. apply Nat.ltb_lt in Hlen. tauto.
Qed.

(** ** The text of a file *)

Lemma read_pages_raises (pages : list page) :
  In PageRaises pages -> forall text, read_pages pages text = None.
Proof.
  induction pages as [|p more IH]; intros H text; [destruct H|].
  destruct p as [t|]; [|reflexivity].
  destruct H as [H|H]; [discriminate H|]. cbn [read_pages]. apply IH. exact H.
Qed.

Lemma read_pages_reads (pages : list page) :
  ~ In PageRaises pages ->
  forall text, read_pages pages text = Some (text ++ flat_map page_lines pages).
Proof.
  induction pages as [|p more IH]; intros H text.
  - simpl. rewrite app_nil_r. reflexivity.
  - destruct p as [t|]; [|exfalso; apply H; left; reflexivity].
    cbn [read_pages flat_map page_lines].
    rewrite IH by (intros H'; apply H; right; exact H').
    destruct t; cbn [is_empty]; [reflexivity|].
    rewrite <- !app_assoc. reflexivity.
Qed.

Lemma page_raises_dec (pages : list page) :
  In PageRaises pages \/ ~ In PageRaises pages.
Proof.
  induction pages as [|p more IH]; [right; intros []|].
  destruct p as [t|]; [|left; left; reflexivity].
  destruct IH as [IH|IH]; [left; right; exact IH|].
  right. intros [H|H]; [discriminate H | exact (IH H)].
Qed.

Lemma page_lines_empty (pages : list page) :
  ~ In PageRaises pages ->
  (flat_map page_lines pages = [] <-> Forall (fun p => p = PageText []) pages).
Proof.
  induction pages as [|p more IH]; intros H.
  - split; [constructor | reflexivity].
  - assert (Hm : ~ In PageRaises more) by (intros H'; apply H; right; exact H').
    destruct p as [t|]; [|exfalso; apply H; left; reflexivity].
    cbn [flat_map page_lines]. split.
    + intros E. apply app_eq_nil in E. destruct E as [E1 E2].
      constructor; [|apply IH; assumption].
      destruct t; [reflexivity | discriminate E1].
    + intros F. inversion F as [|? ? Hp Hmore]; subst.
      injection Hp as ->. cbn [is_empty app]. apply IH; assumption.
Qed.

Lemma process_single_pdf_none (U : unicode) (save : saver) (name now raw_text : str) :
  process_single_pdf U save name now raw_text = Returns None <-> raw_text = [].
Proof.
  split.
  - intros H. destruct raw_text as [|c r]; [reflexivity|].
    destruct (process_single_pdf_some U save name now (c :: r))
      as [meta [secs [_ [_ E]]]]; [discriminate|].
    rewrite E in H.
    destruct (save (assembled U name now (c :: r) meta secs) (filename_base name))
      as [[]|e]; discriminate H.
  - intros ->. reflexivity.
Qed.


(** ** The name of the results *)

Lemma split_at_first_period (stem rest : str) :
  ~ In 46 stem -> split [46] (stem ++ 46 :: rest) = stem :: split [46] rest.
Proof.
  unfold split. induction stem as [|c stem IH]; intros H.
  - reflexivity.
  - cbn [app split_go starts_with].
    destruct (N.eqb_spec 46 c) as [E|E]; [exfalso; apply H; left; symmetry; exact E|].
    cbn [andb]. rewrite IH by (intros H'; apply H; right; exact H'). reflexivity.
Qed.

Lemma split_no_period (stem : str) : ~ In 46 stem -> split [46] stem = [stem].
Proof.
  unfold split. induction stem as [|c stem IH]; intros H.
  - reflexivity.
  - cbn [split_go starts_with].
    destruct (N.eqb_spec 46 c) as [E|E]; [exfalso; apply H; left; symmetry; exact E|].
    cbn [andb]. rewrite IH by (intros H'; apply H; right; exact H'). reflexivity.
Qed.

(** X8: the name under which the results of a file are written is the
    file's name up to its first period, whatever follows it: the files
    whose names agree up to there, as "2104.05740v1.pdf" and
    "2104.08821v2.pdf", share one name for their results. *)
Theorem filename_base_is_up_to_first_period (stem rest rest' : str) :
  ~ In 46 stem ->
  filename_base (stem ++ 46 :: rest) = stem
  /\ filename_base stem = stem
  /\ filename_base (stem ++ 46 :: rest) = filename_base (stem ++ 46 :: rest').
Proof.
  intros H. unfold filename_base.
  rewrite (split_at_first_period stem rest H), (split_at_first_period stem rest' H),
    (split_no_period stem H).
  repeat split.
Qed.

Lemma filename_base_is_up_to_first_period_witness :
  filename_base (py "2104.05740v1.pdf") = py "2104"
  /\ filename_base (py "2104.08821v2.pdf") = py "2104".
Proof.
  assert (H : ~ In 46 (py "2104")).
  { simpl. intros [H|[H|[H|[H|[]]]]]; discriminate H. }
  destruct (filename_base_is_up_to_first_period (py "2104") (py "05740v1.pdf")
              (py "08821v2.pdf") H) as [A [_ C]].
  split; [exact A | exact (eq_trans (eq_sym C) A)].
Defined.

(** ** The title of a section in the prompt *)

Lemma word_cons (c : char) (w : str) :
  is_space c = false -> is_word w -> is_word (c :: w).
Proof.
  intros Hc [_ Hw]. split; [discriminate|]. cbn [forallb]. rewrite Hc, Hw. reflexivity.
Qed.

Lemma word_one (c : char) : is_space c = false -> is_word [c].
Proof.
  intros Hc. split; [discriminate|]. cbn [forallb]. rewrite Hc. reflexivity.
Qed.

Lemma ws_split_words (s : str) : Forall is_word (ws_split s).
Proof.
  induction s as [|c s IH]; [constructor|]. cbn [ws_split].
  destruct (is_space c) eqn:Hc; [exact IH|].
  destruct s as [|d s]; [constructor; [apply word_one, Hc | constructor]|].
  destruct (is_space d) eqn:Hd.
  - constructor; [apply word_one, Hc | exact IH].
  - destruct (ws_split (d :: s)) as [|w ws]; [constructor; [apply word_one, Hc | constructor]|].
    inversion IH as [|? ? Hw Hws]; subst.
    constructor; [apply word_cons; assumption | exact Hws].
Qed.

Lemma ws_split_concat (s : str) :
  concat (ws_split s) = filter (fun c => negb (is_space c)) s.
Proof.
  induction s as [|c s IH]; [reflexivity|]. cbn [ws_split filter].
  destruct (is_space c) eqn:Hc; cbn [negb]; [exact IH|].
  destruct s as [|d s]; [reflexivity|].
  destruct (is_space d) eqn:Hd.
  - cbn [concat app]. rewrite IH. reflexivity.
  - rewrite <- IH. destruct (ws_split (d :: s)) as [|w ws]; reflexivity.
Qed.

Lemma ws_split_word (w : str) : is_word w -> ws_split w = [w].
Proof.
  induction w as [|c w IH]; intros [Hne Hw]; [congruence|].
  cbn [forallb] in Hw. apply andb_true_iff in Hw. destruct Hw as [Hc Hw].
  apply negb_true_iff in Hc. cbn [ws_split]. rewrite Hc.
  destruct w as [|d w]; [reflexivity|].
  assert (Hd : is_space d = false).
  { cbn [forallb] in Hw. apply andb_true_iff in Hw. destruct Hw as [Hd _].
    apply negb_true_iff in Hd. exact Hd. }
  rewrite Hd. rewrite IH by (split; [discriminate | exact Hw]). reflexivity.
Qed.

Lemma ws_split_word_then (w rest : str) :
  is_word w -> ws_split (w ++ 32 :: rest) = w :: ws_split rest.
Proof.
  induction w as [|c w IH]; intros [Hne Hw]; [congruence|].
  cbn [forallb] in Hw. apply andb_true_iff in Hw. destruct Hw as [Hc Hw].
  apply negb_true_iff in Hc. cbn [app ws_split]. rewrite Hc.
  destruct w as [|d w]; [reflexivity|].
  assert (Hd : is_space d = false).
  { cbn [forallb] in Hw. apply andb_true_iff in Hw. destruct Hw as [Hd _].
    apply negb_true_iff in Hd. exact Hd. }
  cbn [app]. rewrite Hd.
  change (d :: w ++ 32 :: rest) with ((d :: w) ++ 32 :: rest).
  rewrite IH by (split; [discriminate | exact Hw]). reflexivity.
Qed.

Lemma word_chars (w : str) (c : char) : is_word w -> In c w -> is_space c = false.
Proof.
  intros [_ Hw] Hin. rewrite forallb_forall in Hw.
  apply negb_true_iff. apply Hw. exact Hin.
Qed.

Lemma word_ends (w : str) :
  is_word w -> head_not is_space w /\ head_not is_space (rev w).
Proof.
  intros Hw. split.
  - destruct w as [|c w]; [exact I|]. cbn [head_not].
    apply (word_chars (c :: w) c Hw). left. reflexivity.
  - destruct (rev w) as [|c r] eqn:E; [exact I|]. cbn [head_not].
    apply (word_chars w c Hw). apply in_rev. rewrite E. left. reflexivity.
Qed.

Lemma contains_twice_free (x : char) (s : str) :
  ~ In x s -> contains [x; x] s = false.
Proof.
  induction s as [|c s IH]; intros H; [reflexivity|].
  cbn [contains starts_with].
  destruct (N.eqb_spec x c) as [E|E].
  - exfalso. apply H. left. symmetry. exact E.
  - simpl. apply IH. intros Hin. apply H. right. exact Hin.
Qed.

Lemma contains_twice_app (x : char) (p r : str) :
  ~ In x p -> head_not (N.eqb x) r -> contains [x; x] r = false ->
  contains [x; x] (p ++ x :: r) = false.
Proof.
  intros Hp Hr Hc. induction p as [|c p IH].
  - cbn [app contains starts_with]. rewrite Hc, N.eqb_refl.
    destruct r as [|d r]; [reflexivity|]. cbn [head_not] in Hr.
    rewrite Hr. reflexivity.
  - cbn [app contains starts_with].
    destruct (N.eqb_spec x c) as [E|E].
    + exfalso. apply Hp. left. symmetry. exact E.
    + simpl. apply IH. intros Hin. apply Hp. right. exact Hin.
Qed.

Lemma filter_word (w : str) :
  is_word w -> filter (fun c => negb (is_space c)) w = w.
Proof.
  intros [_ Hw]. induction w as [|c w IH]; [reflexivity|].
  cbn [forallb] in Hw. apply andb_true_iff in Hw. destruct Hw as [Hc Hw].
  cbn [filter]. rewrite Hc, (IH Hw). reflexivity.
Qed.

(** Words joined by single spaces. *)
Lemma join_words (ws : list str) :
  Forall is_word ws ->
  head_not is_space (join [32] ws)
  /\ head_not is_space (rev (join [32] ws))
  /\ (forall c, In c (join [32] ws) -> is_space c = true -> c = 32)
  /\ contains [32; 32] (join [32] ws) = false
  /\ filter (fun c => negb (is_space c)) (join [32] ws) = concat ws
  /\ ws_split (join [32] ws) = ws.
Proof.
  induction 1 as [|w ws Hw Hws [IH1 [IH2 [IH3 [IH4 [IH5 IH6]]]]]].
  - split; [exact I|]. split; [exact I|]. split; [intros c []|]. repeat split.
  - destruct (word_ends w Hw) as [Hh Hl].
    assert (Hn : ~ In 32 w).
    { intros Hin. pose proof (word_chars w 32 Hw Hin) as E. discriminate E. }
    destruct ws as [|w' ws'].
    + cbn [join concat]. rewrite app_nil_r.
      split; [exact Hh|]. split; [exact Hl|]. split.
      { intros c Hin Hc. rewrite (word_chars w c Hw Hin) in Hc. discriminate Hc. }
      split; [apply contains_twice_free, Hn|].
      split; [apply filter_word, Hw | apply ws_split_word, Hw].
    + change (join [32] (w :: w' :: ws')) with (w ++ 32 :: join [32] (w' :: ws')).
      inversion Hws as [|? ? Hw' _]; subst.
      assert (Hj : join [32] (w' :: ws') <> []).
      { destruct Hw' as [Hne _]. destruct w' as [|c w']; [congruence|].
        destruct ws'; discriminate. }
      split; [destruct w as [|c w]; [destruct Hw; congruence | exact Hh]|].
      split; [apply last_of_later_line; assumption|].
      split.
      { intros c Hin Hc. apply in_app_or in Hin. destruct Hin as [Hin|[E|Hin]].
        - rewrite (word_chars w c Hw Hin) in Hc. discriminate Hc.
        - symmetry. exact E.
        - exact (IH3 c Hin Hc). }
      split.
      { apply contains_twice_app; [exact Hn | | exact IH4].
        destruct (join [32] (w' :: ws')) as [|d r]; [exact I|].
        cbn [head_not] in IH1 |- *. apply N.eqb_neq. intros E. subst d.
        discriminate IH1. }
      split.
      { rewrite filter_app. cbn [filter]. change (is_space 32) with true. cbn [negb].
        rewrite IH5, (filter_word w Hw). reflexivity. }
      rewrite (ws_split_word_then w _ Hw). rewrite IH6. reflexivity.
Qed.

(** X9: the title under which [convert_to_prompt] puts a section holds
    no white space but single spaces between its words: no line break, no
    tab, no space at either end and no two spaces in a row.  It keeps the
    other characters of the title, in their order, and cleaning it again
    changes nothing. *)
Theorem section_title_cleaned_is_one_line (title : str) :
  (forall c, In c (section_title_cleaned title) -> is_space c = true -> c = 32)
  /\ strip (section_title_cleaned title) = section_title_cleaned title
  /\ contains [32; 32] (section_title_cleaned title) = false
  /\ filter (fun c => negb (is_space c)) (section_title_cleaned title)
     = filter (fun c => negb (is_space c)) title
  /\ section_title_cleaned (section_title_cleaned title) = section_title_cleaned title.
Proof.
  unfold section_title_cleaned.
  destruct (join_words (ws_split title) (ws_split_words title))
    as [H1 [H2 [H3 [H4 [H5 H6]]]]].
  split; [exact H3|]. split; [apply strip_fixed; assumption|].
  split; [exact H4|]. split; [rewrite H5; apply ws_split_concat|].
  rewrite H6. reflexivity.
Qed.

(** ** The summary of a run over all files *)

Lemma process_pdf_file_result (U : unicode) (f : raw_file) :
  match process_pdf_file U (file_save f) (file_name f) (file_time f) (file_pdf f) with
  | Returns (Some d) =>
      file_succeeds f = true
      /\ source_file d = file_name f
      /\ (paragraph_count (stats d) <= 1)%nat
  | Returns None => file_succeeds f = false
  | Raises _ => file_succeeds f = false
  end.
Proof.
  unfold process_pdf_file, file_succeeds.
  destruct (extract_text_from_pdf (file_pdf f)) as [|c r] eqn:E; [reflexivity|].
  destruct (process_single_pdf_some U (file_save f) (file_name f) (file_time f) (c :: r))
    as [meta [secs [_ [_ H]]]]; [discriminate|].
  rewrite H. unfold file_save. cbn [is_empty negb andb].
  destruct (file_saves f); cbn [bind]; [|reflexivity].
  split; [reflexivity|]. split; [reflexivity|].
  cbn [assembled stats paragraph_count].
  destruct (paragraphs_of_clean_text U (c :: r) default_min_length) as [P|[P _]];
    rewrite P; simpl; lia.
Qed.

Lemma collect_results_succeed (U : unicode) (pdf_files : list raw_file) :
  map source_file (collect_results U pdf_files)
  = map file_name (filter file_succeeds pdf_files)
  /\ Forall (fun d => (paragraph_count (stats d) <= 1)%nat)
       (collect_results U pdf_files).
Proof.
  induction pdf_files as [|f more [IH1 IH2]]; [split; [reflexivity | constructor]|].
  cbn [collect_results filter].
  pose proof (process_pdf_file_result U f) as H.
  destruct (process_pdf_file U (file_save f) (file_name f) (file_time f) (file_pdf f))
    as [[d|]|e].
  - destruct H as [Hs [Hn Hp]]. rewrite Hs. cbn [map]. rewrite Hn, IH1.
    split; [reflexivity|]. constructor; assumption.
  - rewrite H. split; assumption.
  - rewrite H. split; assumption.
Qed.


(** ** Where a match goes on *)

Section Continuing.

Variable U : unicode.
Variable f : flags.

(** A repetition that matches took some characters of the text, at least
    [lo], and what follows it matched from there. *)
Lemma rep_continues (s : cset) (g : bool) (k : cont) (cs : caps) (res : nat * caps)
    (rest : str) :
  forall lo pos,
    rep U f s g k lo pos rest cs = Some res ->
    exists n, (lo <= n <= List.length rest)%nat
              /\ k (pos + n)%nat (skipn n rest) cs = Some res.
Proof.
  induction rest as [|c rest IH]; intros lo pos H.
  - assert (Hstop : match lo with O => k pos [] cs | S _ => None end = Some res).
    { simpl in H. destruct g; [exact H|].
      apply first_some_inv in H. destruct H as [H|H]; [exact H | discriminate]. }
    destruct lo; [|discriminate]. exists 0%nat.
    split; [simpl; lia|]. rewrite Nat.add_0_r. exact Hstop.
  - assert (Hc : (if cset_matches U f s c
                  then rep U f s g k (pred lo) (S pos) rest cs else None)
                 = Some res
                 \/ match lo with O => k pos (c :: rest) cs | S _ => None end
                    = Some res).
    { cbn [rep] in H. destruct g; apply first_some_inv in H; tauto. }
    destruct Hc as [Hc|Hc].
    + destruct (cset_matches U f s c); [|discriminate].
      destruct (IH _ _ Hc) as [n [Hn Hk]]. exists (S n).
      split; [simpl; lia|]. rewrite Nat.add_succ_r. exact Hk.
    + destruct lo; [|discriminate]. exists 0%nat.
      split; [simpl; lia|]. rewrite Nat.add_0_r. exact Hc.
Qed.

(** A pattern that matches took some characters of the text, at least
    [min_len], and what follows it matched from there. *)
Lemma rmatch_continues (r : regex) :
  forall (k : cont) (pos : nat) (rest : str) (cs : caps) (res : nat * caps),
    rmatch U f r k pos rest cs = Some res ->
    exists n cs', (min_len r <= n <= List.length rest)%nat
                  /\ k (pos + n)%nat (skipn n rest) cs' = Some res.
Proof.
  induction r as [|s|s lo g|s|r1 IH1 r2 IH2|r1 IH1 r2 IH2|n r1 IH1| | |r1 IH1];
    intros k pos rest cs res H; cbn [rmatch] in H; cbn [min_len].
  - exists 0%nat, cs. split; [lia|]. rewrite Nat.add_0_r. exact H.
  - destruct rest as [|c rest]; [discriminate|].
    destruct (cset_matches U f s c); [|discriminate].
    exists 1%nat, cs. split; [simpl; lia|]. rewrite Nat.add_1_r. exact H.
  - destruct (rep_continues s g k cs res rest lo pos H) as [n Hn].
    exists n, cs. exact Hn.
  - apply first_some_inv in H. destruct H as [H|H].
    + destruct rest as [|c rest]; [discriminate|].
      destruct (cset_matches U f s c); [|discriminate].
      exists 1%nat, cs. split; [simpl; lia|]. rewrite Nat.add_1_r. exact H.
    + exists 0%nat, cs. split; [lia|]. rewrite Nat.add_0_r. exact H.
  - destruct (IH1 _ _ _ _ _ H) as [n1 [cs1 [Hn1 H1]]].
    destruct (IH2 _ _ _ _ _ H1) as [n2 [cs2 [Hn2 H2]]].
    rewrite length_skipn in Hn2.
    exists (n1 + n2)%nat, cs2. split; [lia|].
    rewrite skipn_skipn in H2. rewrite Nat.add_assoc, (Nat.add_comm n1 n2). exact H2.
  - apply first_some_inv in H. destruct H as [H|H].
    + destruct (IH1 _ _ _ _ _ H) as [n1 [cs1 [Hn1 H1]]].
      exists n1, cs1. split; [lia | exact H1].
    + destruct (IH2 _ _ _ _ _ H) as [n2 [cs2 [Hn2 H2]]].
      exists n2, cs2. split; [lia | exact H2].
  - destruct (IH1 _ _ _ _ _ H) as [n1 [cs1 [Hn1 H1]]].
    exists n1. eexists. split; [exact Hn1 | exact H1].
  - destruct (Nat.eqb pos 0); [|discriminate].
    exists 0%nat, cs. split; [lia|]. rewrite Nat.add_0_r. exact H.
  - exists 0%nat, cs. split; [lia|]. rewrite Nat.add_0_r.
    destruct rest as [|c [|d rest]]; try discriminate; [exact H|].
    destruct (c =? NL); [exact H | discriminate].
  - destruct (rmatch U f r1 accept pos rest cs) as [[e1 cs1]|]; [|discriminate].
    exists 0%nat, cs1. split; [lia|]. rewrite Nat.add_0_r. exact H.
Qed.

(** A match starts at its position, takes at least [min_len] characters
    and ends within the text. *)
Lemma match_at_span (r : regex) (pos : nat) (rest : str) (m : rmatch_obj) :
  match_at U f r pos rest = Some m ->
  m_start m = pos
  /\ (pos + min_len r <= m_end m <= pos + List.length rest)%nat.
Proof.
  unfold match_at. intros H.
  destruct (rmatch U f r accept pos rest []) as [[e cs]|] eqn:E; [|discriminate].
  injection H as <-. cbn [m_start m_end].
  destruct (rmatch_continues r _ _ _ _ _ E) as [n [cs' [Hn Hk]]].
  injection Hk as <- _. split; [reflexivity | lia].
Qed.

(** A search that succeeds found a place of the text where the pattern
    matches. *)
Lemma search_from_at (r : regex) (rest : str) :
  forall pos m,
    search_from U f r pos rest = Some m ->
    exists a b res, rest = a ++ b
                    /\ rmatch U f r accept (pos + List.length a)%nat b [] = Some res.
Proof.
  induction rest as [|c rest IH]; intros pos m H; cbn [search_from] in H.
  - unfold match_at in H.
    destruct (rmatch U f r accept pos [] []) as [res|] eqn:E; [|discriminate].
    exists [], [], res. split; [reflexivity|]. simpl. rewrite Nat.add_0_r. exact E.
  - unfold match_at in H.
    destruct (rmatch U f r accept pos (c :: rest) []) as [res|] eqn:E.
    + exists [], (c :: rest), res. split; [reflexivity|].
      simpl. rewrite Nat.add_0_r. exact E.
    + destruct (IH _ _ H) as [a [b [res [Hr Hm]]]].
      exists (c :: a), b, res. split; [rewrite Hr; reflexivity|].
      cbn [List.length]. rewrite Nat.add_succ_r. exact Hm.
Qed.

(** When a pattern that ends with a lookahead matches, what is looked for
    matches somewhere in the text. *)
Lemma seqs_ahead (rs : list regex) (x : regex) :
  forall pos rest cs res,
    rmatch U f (seqs (rs ++ [Ahead x])) accept pos rest cs = Some res ->
    exists a b pos' cs' res',
      rest = a ++ b /\ rmatch U f x accept pos' b cs' = Some res'.
Proof.
  induction rs as [|r rs IH]; intros pos rest cs res H.
  - cbn [app seqs rmatch] in H.
    destruct (rmatch U f x accept pos rest cs) as [res'|] eqn:E; [|discriminate].
    exists [], rest, pos, cs, res'. split; [reflexivity | exact E].
  - assert (E : seqs ((r :: rs) ++ [Ahead x]) = Seq r (seqs (rs ++ [Ahead x]))).
    { destruct rs; reflexivity. }
    rewrite E in H. cbn [rmatch] in H.
    destruct (rmatch_continues r _ _ _ _ _ H) as [n [cs1 [_ H1]]].
    destruct (IH _ _ _ _ H1) as [a [b [pos' [cs' [res' [Hr Hm]]]]]].
    exists (firstn n rest ++ a), b, pos', cs', res'.
    split; [|exact Hm]. rewrite <- app_assoc, <- Hr. symmetry. apply firstn_skipn.
Qed.

(** Where a literal matches with case ignored, the text starts with it,
    case ignored. *)
Lemma rmatch_lit_ignoring_case (s : str) (k : cont) (cs : caps) (res : nat * caps) :
  forall pos rest,
    rmatch U f (lit s) k pos rest cs = Some res ->
    starts_with_ignoring_case U s rest = true.
Proof.
  induction s as [|x s IH]; intros pos rest H; [reflexivity|].
  cbn [lit rmatch chr] in H. destruct rest as [|c rest]; [discriminate|].
  cbn [starts_with_ignoring_case].
  destruct (cset_matches U f (one (I_chr x)) c) eqn:E; [|discriminate].
  rewrite (IH _ _ H), andb_true_r.
  cbn [cset_matches one existsb item_matches xorb] in E.
  rewrite orb_false_r in E.
  destruct (c =? x); [reflexivity|]. cbn [orb] in E |- *.
  apply andb_true_iff in E. destruct E as [_ E]. exact E.
Qed.

End Continuing.

(** ** The abstract and the keywords of a document *)

Lemma text_after_newlines_suffix (a b : str) :
  text_after_newlines (a ++ b) = true -> text_after_newlines b = true.
Proof.
  induction a as [|c a IH]; intros H; [exact H|].
  cbn [app text_after_newlines] in H. apply andb_true_iff in H. apply IH, H.
Qed.

Lemma clean_text_after_newlines (U : unicode) (text : str) :
  text_after_newlines (clean_text U text) = true.
Proof.
  destruct (clean_text_lines U text) as [ls [E Hls]]. rewrite E.
  apply text_after_newlines_join.
  eapply Forall_impl; [|exact Hls]. intros l [Hl [Hne [Hst _]]].
  split; [|split; [exact Hne|]].
  - intros Hin. specialize (Hl NL Hin). discriminate.
  - rewrite <- Hst. apply strip_head.
Qed.

Lemma newline_only (U : unicode) (f : flags) (c : char) :
  newline_is_caseless U -> cset_matches U f (one (I_chr NL)) c = true -> c = NL.
Proof.
  intros HU H. cbn [cset_matches one existsb item_matches xorb] in H.
  rewrite orb_false_r in H. apply orb_true_iff in H. destruct H as [H|H].
  - apply N.eqb_eq, H.
  - apply andb_true_iff in H. apply HU, H.
Qed.

(** In a text where white space never follows a newline, no blank line is
    ahead. *)
Lemma no_blank_line_ahead (U : unicode) (f : flags) (pos : nat) (rest : str) (cs : caps) :
  newline_is_caseless U -> text_after_newlines rest = true ->
  rmatch U f blank_line_ahead accept pos rest cs = None.
Proof.
  intros HU H.
  destruct (rmatch U f blank_line_ahead accept pos rest cs) as [res|] eqn:E;
    [exfalso | reflexivity].
  unfold blank_line_ahead in E. cbn [seqs rmatch chr star] in E.
  destruct rest as [|c rest]; [discriminate|].
  destruct (cset_matches U f (one (I_chr NL)) c) eqn:Ec; [|discriminate].
  apply (newline_only U f c HU) in Ec. subst c.
  cbn [text_after_newlines] in H. apply andb_true_iff in H. destruct H as [H _].
  rewrite N.eqb_refl in H. cbn [negb orb] in H.
  destruct rest as [|d rest]; [discriminate|]. apply negb_true_iff in H.
  pose proof (f_equal isSome E) as HS. change (isSome (Some res)) with true in HS.
  rewrite rep_isSome_cons in HS.
  replace (cset_matches U f space d) with false in HS
    by (simpl; rewrite H; reflexivity).
  cbv beta iota in HS. cbn [orb rmatch] in HS.
  destruct (cset_matches U f (one (I_chr NL)) d) eqn:Ed; [|discriminate].
  apply (newline_only U f d HU) in Ed. subst d. discriminate H.
Qed.

(** A field of the metadata that is there was found by its pattern. *)
Lemma metadata_fields (U : unicode) (text : str) (d : dict) :
  extract_paper_metadata U text = Returns d ->
  (dict_get "abstract" d <> None ->
   re_search U icase_dotall re_abstract text <> None)
  /\ (dict_get "keywords" d <> None ->
      re_search U icase_dotall re_keywords text <> None).
Proof.
  unfold extract_paper_metadata. cbv zeta.
  destruct (filter (is_title_candidate U) (firstn 20 (split [NL] text)))
    as [|first others];
    destruct (re_search U icase_dotall re_abstract text) as [ma|];
    destruct (re_search U icase_dotall re_keywords text) as [mk|];
    intros H; split; intros Hd; try discriminate;
    exfalso; apply Hd; clear Hd; cbn [bind] in H;
    repeat match type of H with
           | context [group_strip ?t ?m ?n] =>
               destruct (group_strip t m n); cbn [bind] in H
           end;
    try discriminate H; injection H as <-;
    try (rewrite dict_get_set_other by discriminate); reflexivity.
Qed.

Lemma alts_lits (U : unicode) (f : flags) (ls : list str) :
  forall l pos rest cs res,
    rmatch U f (alts (lit l) (map lit ls)) accept pos rest cs = Some res ->
    existsb (fun l' => starts_with_ignoring_case U l' rest) (l :: ls) = true.
Proof.
  induction ls as [|l' ls IH]; intros l pos rest cs res H; cbn [map alts] in H.
  - cbn [existsb]. rewrite (rmatch_lit_ignoring_case U f l _ _ _ _ _ H). reflexivity.
  - cbn [rmatch] in H. apply first_some_inv in H. destruct H as [H|H].
    + cbn [existsb]. rewrite (rmatch_lit_ignoring_case U f l _ _ _ _ _ H). reflexivity.
    + change (existsb (fun l' => starts_with_ignoring_case U l' rest) (l :: l' :: ls))
        with (starts_with_ignoring_case U l rest
              || existsb (fun l' => starts_with_ignoring_case U l' rest) (l' :: ls)).
      rewrite (IH _ _ _ _ _ H). apply orb_true_r.
Qed.

(** In a text where white space never follows a newline, a pattern that
    looks ahead for a blank line or for one of the lines [l :: ls] is found
    only where one of these lines is ahead. *)
Lemma found_before_a_line (U : unicode) (f : flags) (rs : list regex) (l : str)
    (ls : list str) (text : str) :
  newline_is_caseless U -> text_after_newlines text = true ->
  re_search U f (seqs (rs ++ [Ahead (alts blank_line_ahead (map lit (l :: ls)))])) text
  <> None ->
  exists before after,
    text = before ++ after
    /\ existsb (fun l' => starts_with_ignoring_case U l' after) (l :: ls) = true.
Proof.
  intros HU Ht Hs. unfold re_search in Hs.
  destruct (search_from U f _ 0 text) as [m|] eqn:E; [clear Hs | congruence].
  destruct (search_from_at U f _ _ _ _ E) as [a [b [res [Hab Hm]]]].
  destruct (seqs_ahead U f _ _ _ _ _ _ Hm) as [a' [b' [pos' [cs' [res' [Hb Hx]]]]]].
  exists (a ++ a'), b'. split; [rewrite <- app_assoc, <- Hb; exact Hab|].
  assert (Hb' : text_after_newlines b' = true).
  { apply (text_after_newlines_suffix a'). rewrite <- Hb.
    apply (text_after_newlines_suffix a). rewrite <- Hab. exact Ht. }
  cbn [map alts rmatch] in Hx. rewrite (no_blank_line_ahead U f _ _ _ HU Hb') in Hx.
  exact (alts_lits U f ls l _ _ _ _ Hx).
Qed.

(** X11: [process_single_pdf] looks for the abstract and the keywords in
    the text [clean_text] returned, which has no blank line: there the
    abstract is found only where, ignoring case, a later line starts with
    "introduction", "1." or "keywords", and the keywords only where one
    starts with "introduction" or "1.". *)
Theorem abstract_ends_at_a_heading_line (U : unicode) (save : saver)
    (name now raw_text : str) (doc : processed_data) :
  newline_is_caseless U ->
  process_single_pdf U save name now raw_text = Returns (Some doc) ->
  (dict_get "abstract" (metadata doc) <> None ->
   exists before after,
     clean_text U raw_text = before ++ after
     /\ starts_with_ignoring_case U (py "\nintroduction") after
        || starts_with_ignoring_case U (py "\n1.") after
        || starts_with_ignoring_case U (py "\nkeywords") after = true)
  /\ (dict_get "keywords" (metadata doc) <> None ->
      exists before after,
        clean_text U raw_text = before ++ after
        /\ starts_with_ignoring_case U (py "\nintroduction") after
           || starts_with_ignoring_case U (py "\n1.") after = true).
Proof.
  intros HU H.
  destruct raw_text as [|c r]; [discriminate H|].
  destruct (process_single_pdf_some U save name now (c :: r))
    as [meta [secs [Hm [_ E]]]]; [discriminate|].
  rewrite E in H.
  destruct (save (assembled U name now (c :: r) meta secs) (filename_base name))
    as [[]|e]; [|discriminate H].
  cbn [bind] in H. injection H as <-. cbn [assembled metadata].
  destruct (metadata_fields U _ _ Hm) as [Ha Hk].
  pose proof (clean_text_after_newlines U (c :: r)) as Ht.
  split; intros Hd.
  - destruct (found_before_a_line U icase_dotall
                [lit (py "abstract"); star space; Opt (Cls false [I_chr 58; I_chr 45]);
                 star space; Grp 1 (lazy_star Any)]
                (py "\nintroduction") [py "\n1."; py "\nkeywords"]
                _ HU Ht (Ha Hd)) as [before [after [Hb Hx]]].
    exists before, after. split; [exact Hb|].
    cbn [existsb] in Hx. rewrite orb_false_r, orb_assoc in Hx. exact Hx.
  - destruct (found_before_a_line U icase_dotall
                [lit (py "keyword"); Opt (one (I_chr 115)); star space;
                 Opt (Cls false [I_chr 58; I_chr 45]);
                 star space; Grp 1 (lazy_star Any)]
                (py "\nintroduction") [py "\n1."]
                _ HU Ht (Hk Hd)) as [before [after [Hb Hx]]].
    exists before, after. split; [exact Hb|].
    cbn [existsb] in Hx. rewrite orb_false_r in Hx. exact Hx.
Qed.

Lemma basic_latin_newline_is_caseless : newline_is_caseless basic_latin.
Proof.
  intros c H. cbn [ci_eq basic_latin] in H. apply N.eqb_eq in H.
  unfold ascii_lower in H. change ((65 <=? NL) && (NL <=? 90)) with false in H.
  cbv iota in H. destruct ((65 <=? c) && (c <=? 90)) eqn:E.
  - unfold NL in H. lia.
  - symmetry. exact H.
Qed.

Lemma abstract_ends_at_a_heading_line_witness :
  exists before after,
    clean_text basic_latin
      (py "Abstract: We study slides.\n\nIntroduction\nSlides are made from papers.")
    = before ++ after
    /\ starts_with_ignoring_case basic_latin (py "\nintroduction") after
       || starts_with_ignoring_case basic_latin (py "\n1.") after
       || starts_with_ignoring_case basic_latin (py "\nkeywords") after = true.
Proof.
  assert (E : exists doc,
             process_single_pdf basic_latin saves_all (py "paper.pdf")
               (py "2024-05-01T12:00:00")
               (py "Abstract: We study slides.\n\nIntroduction\nSlides are made from papers.")
             = Returns (Some doc)
             /\ dict_get "abstract" (metadata doc) <> None).
  { vm_compute. eexists. split; [reflexivity | discriminate]. }
  destruct E as [doc [E Ha]].
  exact (proj1 (abstract_ends_at_a_heading_line basic_latin _ _ _ _ _
                  basic_latin_newline_is_caseless E) Ha).
Defined.

(** ** The length of a normalized text *)

Section Lengths.

Variable U : unicode.

(** Where no match is empty and no replacement is longer than what it
    replaces, [re.sub] does not lengthen the text. *)
Lemma sub_go_length (f : flags) (r : regex) (repl : list ritem) (text : str) :
  (forall pos rest m,
      match_at U f r pos rest = Some m ->
      (List.length (expand text m repl) <= m_end m - pos)%nat
      /\ (pos < m_end m <= pos + List.length rest)%nat) ->
  forall rest skip pos,
    (List.length (sub_go U f r repl text skip pos rest) <= List.length rest - skip)%nat.
Proof.
  intros H. induction rest as [|c rest IH]; intros skip pos.
  - destruct skip as [|n]; [|simpl; lia]. cbn [sub_go]. rewrite app_nil_r.
    unfold matches_here. destruct (match_at U f r pos []) as [m|] eqn:E; [|simpl; lia].
    destruct (H _ _ _ E) as [_ Hm]. simpl in Hm. lia.
  - destruct skip as [|n]; cbn [sub_go].
    + unfold matches_here.
      destruct (match_at U f r pos (c :: rest)) as [m|] eqn:E.
      * destruct (H _ _ _ E) as [Hx Hm]. cbn [List.length] in Hm.
        destruct (Nat.eqb_spec (m_end m) pos) as [Ee|Ee]; [lia|].
        cbn [flat_map covered fold_right]. rewrite app_nil_r, Nat.max_0_r.
        destruct (m_end m - pos)%nat as [|n] eqn:En; [lia|].
        rewrite length_app. specialize (IH n (S pos)). cbn [List.length]. lia.
      * cbn [flat_map covered fold_right app List.length].
        specialize (IH 0%nat (S pos)). lia.
    + specialize (IH n (S pos)). cbn [List.length]. lia.
Qed.

Lemma re_sub_length (f : flags) (r : regex) (repl : list ritem) (text : str) :
  (forall pos rest m,
      match_at U f r pos rest = Some m ->
      (List.length (expand text m repl) <= m_end m - pos)%nat
      /\ (pos < m_end m <= pos + List.length rest)%nat) ->
  (List.length (re_sub U f r repl text) <= List.length text)%nat.
Proof.
  intros H. unfold re_sub.
  pose proof (sub_go_length f r repl text H text 0%nat 0%nat). lia.
Qed.

(** A replacement by a literal no longer than the shortest match. *)
Lemma re_sub_literal_length (f : flags) (r : regex) (l text : str) :
  (0 < min_len r)%nat -> (List.length l <= min_len r)%nat ->
  (List.length (re_sub U f r [R_lit l] text) <= List.length text)%nat.
Proof.
  intros H0 Hl. apply re_sub_length. intros pos rest m E.
  destruct (match_at_span U f r pos rest m E) as [_ Hm].
  cbn [expand flat_map]. rewrite app_nil_r. lia.
Qed.

Lemma slice_length (s : str) (a b : nat) : (List.length (slice s a b) <= b - a)%nat.
Proof. unfold slice. rewrite length_firstn. lia. Qed.

Lemma hyphen_break_at (pos : nat) (rest : str) (m : rmatch_obj) :
  match_at U no_flags re_hyphen_break pos rest = Some m ->
  m = Match pos (S (S (S (S pos))))
        [(2%nat, (S (S (S pos)), S (S (S (S pos))))); (1%nat, (pos, S pos))].
Proof.
  unfold match_at, re_hyphen_break. cbn [seqs rmatch chr].
  destruct rest as [|c1 [|c2 [|c3 [|c4 rest]]]];
    repeat match goal with
           | |- context [cset_matches ?u ?f ?s ?c] => destruct (cset_matches u f s c)
           end;
    try discriminate.
  cbn [accept set_cap]. intros [= <-]. reflexivity.
Qed.

Lemma re_sub_hyphen_break_length (text : str) :
  (List.length (re_sub U no_flags re_hyphen_break [R_grp 1; R_grp 2] text)
   <= List.length text)%nat.
Proof.
  apply re_sub_length. intros pos rest m E.
  destruct (match_at_span U no_flags _ pos rest m E) as [_ Hm].
  cbn [re_hyphen_break seqs min_len chr] in Hm.
  rewrite (hyphen_break_at pos rest m E) in Hm |- *.
  cbn [m_end] in Hm |- *. split; [|lia].
  cbn [expand flat_map group m_caps get_cap Nat.eqb]. rewrite app_nil_r, length_app.
  pose proof (slice_length text pos (S pos)).
  pose proof (slice_length text (S (S (S pos))) (S (S (S (S pos))))). lia.
Qed.

End Lengths.

Lemma join_length (ls : list str) :
  List.length (join [NL] ls) = (lines_length ls - 1)%nat.
Proof.
  unfold lines_length, list_sum. induction ls as [|l ls IH]; [reflexivity|].
  destruct ls as [|l' ls'].
  - simpl. lia.
  - change (join [NL] (l :: l' :: ls')) with (l ++ NL :: join [NL] (l' :: ls')).
    rewrite length_app. cbn [List.length]. rewrite IH. cbn [map fold_right]. lia.
Qed.

Lemma splitlines_length_upto (n : nat) :
  forall s, (List.length s <= n)%nat ->
            (lines_length (splitlines s) <= S (List.length s))%nat.
Proof.
  unfold lines_length, list_sum.
  induction n as [|n IH]; intros s Hn.
  - destruct s; [simpl; lia | simpl in Hn; lia].
  - destruct s as [|c s]; [simpl; lia|]. cbn [List.length] in Hn.
    cbn [splitlines]. destruct (is_linebreak c).
    + destruct s as [|d s]; [simpl; lia|].
      destruct ((c =? CR) && (d =? NL)).
      * cbn [List.length] in Hn. pose proof (IH s ltac:(lia)).
        cbn [map fold_right List.length]. lia.
      * pose proof (IH (d :: s) ltac:(lia)). cbn [map fold_right List.length] in *. lia.
    + pose proof (IH s ltac:(lia)) as Hs.
      destruct (splitlines s) as [|l ls]; cbn [map fold_right List.length] in *; lia.
Qed.

Lemma strip_length (s : str) : (List.length (strip s) <= List.length s)%nat.
Proof.
  destruct (strip_infix s) as [a [b E]].
  rewrite E at 2. rewrite !length_app. lia.
Qed.

Lemma stripped_lines_length (p : str -> bool) (ls : list str) :
  (lines_length (map strip (filter p ls)) <= lines_length ls)%nat.
Proof.
  unfold lines_length, list_sum. induction ls as [|l ls IH]; [simpl; lia|].
  cbn [filter]. pose proof (strip_length l).
  destruct (p l); cbn [map fold_right]; lia.
Qed.

Lemma join_stripped_lines_length (text : str) :
  (List.length (join_stripped_lines text) <= List.length text)%nat.
Proof.
  unfold join_stripped_lines. rewrite join_length.
  pose proof (stripped_lines_length
                (fun line => negb (is_empty (strip line))) (splitlines text)).
  pose proof (splitlines_length_upto (List.length text) text (le_n _)). lia.
Qed.

(** X12: [clean_text] never returns a text longer than the one it is
    given, so the text length in the statistics of a document is at most
    the length of the text read from the file. *)
Theorem clean_text_is_never_longer (U : unicode) (save : saver)
    (name now text : str) :
  (List.length (clean_text U text) <= List.length text)%nat
  /\ match process_single_pdf U save name now text with
     | Returns (Some doc) =>
         (total_text_length (stats doc) <= List.length text)%nat
     | _ => True
     end.
Proof.
  assert (H : (List.length (clean_text U text) <= List.length text)%nat).
  { unfold clean_text. destruct (is_empty text); [simpl; lia|]. cbv zeta.
    eapply Nat.le_trans; [apply join_stripped_lines_length|].
    eapply Nat.le_trans;
      [apply re_sub_literal_length; cbn [re_blanks plus min_len List.length]; lia|].
    eapply Nat.le_trans;
      [apply re_sub_literal_length;
       cbn [re_blank_lines seqs chr star min_len List.length]; lia|].
    eapply Nat.le_trans; [apply re_sub_hyphen_break_length|].
    eapply Nat.le_trans;
      [apply re_sub_literal_length; unfold re_page_line;
       cbn [seqs chr star plus lazy_star min_len List.length]; lia|].
    apply re_sub_literal_length;
      cbn [re_number_line seqs chr star plus min_len List.length]; lia. }
  split; [exact H|].
  destruct text as [|c r]; [exact I|].
  destruct (process_single_pdf_some U save name now (c :: r))
    as [meta [secs [_ [_ E]]]]; [discriminate|].
  rewrite E.
  destruct (save (assembled U name now (c :: r) meta secs) (filename_base name))
    as [[]|e]; cbn [bind]; [|exact I].
  cbn [assembled stats total_text_length]. exact H.
Qed.

(** ** A section begins with its heading *)

Lemma dropwhile_app (p : char -> bool) (a b : str) :
  dropwhile p (a ++ b)
  = if forallb p a then dropwhile p b else dropwhile p a ++ b.
Proof.
  induction a as [|c a IH]; [reflexivity|].
  cbn [app dropwhile forallb]. destruct (p c); [exact IH | reflexivity].
Qed.

Lemma strip_spaces (s : str) : forallb is_space s = true -> strip s = [].
Proof.
  intros H. unfold strip, lstrip.
  rewrite <- (app_nil_r s) at 1. rewrite dropwhile_app, H. reflexivity.
Qed.

Lemma strip_after_spaces (ws s : str) :
  forallb is_space ws = true -> strip (ws ++ s) = strip s.
Proof.
  intros H. unfold strip, lstrip. rewrite dropwhile_app, H. reflexivity.
Qed.

Lemma rstrip_app (p r : str) : exists x, rstrip (p ++ r) = rstrip p ++ x.
Proof.
  unfold rstrip. rewrite rev_app_distr, dropwhile_app.
  destruct (forallb is_space (rev r)).
  - exists []. rewrite app_nil_r. reflexivity.
  - destruct (dropwhile_suffix is_space (rev p)) as [a Ha].
    exists (rev a ++ rev (dropwhile is_space (rev r))).
    rewrite rev_app_distr, rev_involutive, app_assoc. f_equal.
    rewrite <- rev_app_distr, <- Ha. symmetry. apply rev_involutive.
Qed.

Lemma firstn_more {A : Type} (a k : nat) (l : list A) :
  firstn (a + k) l = firstn a l ++ firstn k (skipn a l).
Proof.
  revert l. induction a as [|a IH]; intros l; [reflexivity|].
  destruct l as [|x l]; [destruct k; reflexivity|].
  cbn [Nat.add firstn skipn app]. rewrite IH. reflexivity.
Qed.

Lemma forallb_firstn (p : char -> bool) (n : nat) (s : str) :
  forallb p s = true -> forallb p (firstn n s) = true.
Proof.
  revert s. induction n as [|n IH]; intros s H; [reflexivity|].
  destruct s as [|c s]; [reflexivity|].
  cbn [forallb firstn] in H |- *. apply andb_true_iff in H. destruct H as [Hc Hs].
  rewrite Hc, (IH s Hs). reflexivity.
Qed.

Lemma firstn_head_not (p : char -> bool) (n : nat) (s : str) :
  head_not p s -> head_not p (firstn n s).
Proof. destruct n, s; intros H; try exact I. exact H. Qed.

(** Of a text that does not begin with white space, the trimmed beginnings
    grow with their lengths. *)
Lemma strip_firstn_grows (body : str) (a b : nat) :
  head_not is_space body -> (a <= b)%nat ->
  exists x, strip (firstn b body) = strip (firstn a body) ++ x.
Proof.
  intros Hh Hab.
  replace b with (a + (b - a))%nat by lia.
  assert (Hq : head_not is_space (firstn (a + (b - a)) body))
    by (apply firstn_head_not, Hh).
  assert (Hp : head_not is_space (firstn a body)) by (apply firstn_head_not, Hh).
  rewrite firstn_more in Hq |- *.
  unfold strip, lstrip. rewrite (dropwhile_fixed _ _ Hp), (dropwhile_fixed _ _ Hq).
  apply rstrip_app.
Qed.

(** The part of a text from a heading on, cut anywhere and trimmed, begins
    with the heading when it is longer than the heading. *)
Lemma content_begins_with_heading (text : str) (start : nat) (t : str) (n : nat) :
  heading_at text start t ->
  (List.length t < List.length (strip (firstn n (skipn start text))))%nat ->
  exists rest, strip (firstn n (skipn start text)) = t ++ rest.
Proof.
  intros [pre [ws [body [ng [Ht [Hpre [Hws [Hbody ->]]]]]]]] Hlen.
  assert (Hskip : skipn start text = (NL :: ws) ++ body).
  { rewrite Ht, <- Hpre, skipn_app, Nat.sub_diag, skipn_all. reflexivity. }
  rewrite Hskip in Hlen |- *.
  assert (HL : forallb is_space (NL :: ws) = true)
    by (cbn [forallb]; rewrite Hws; reflexivity).
  rewrite firstn_app in Hlen |- *.
  destruct (Nat.le_gt_cases n (List.length (NL :: ws))) as [Hn|Hn].
  - exfalso.
    replace (n - List.length (NL :: ws))%nat with 0%nat in Hlen by lia.
    cbn [firstn] in Hlen. rewrite app_nil_r in Hlen.
    rewrite (strip_spaces (firstn n (NL :: ws))) in Hlen;
      [cbn [List.length] in Hlen; lia|].
    apply forallb_firstn, HL.
  - assert (Hf : firstn n (NL :: ws) = NL :: ws) by (apply firstn_all2; lia).
    rewrite Hf in Hlen |- *.
    rewrite (strip_after_spaces (NL :: ws)) in Hlen |- * by exact HL.
    set (n' := (n - List.length (NL :: ws))%nat) in *.
    destruct (Nat.le_gt_cases ng n') as [Hg|Hg].
    + exact (strip_firstn_grows body ng n' Hbody Hg).
    + exfalso. destruct (strip_firstn_grows body n' ng Hbody ltac:(lia)) as [x Hx].
      rewrite Hx, length_app in Hlen. lia.
Qed.

Section HeadingMatches.

Variable U : unicode.
Variable f : flags.

(** A repetition that matches took characters of its set. *)
Lemma rep_took (s : cset) (g : bool) (k : cont) (cs : caps) (res : nat * caps)
    (rest : str) :
  forall lo pos,
    rep U f s g k lo pos rest cs = Some res ->
    exists n, (lo <= n <= List.length rest)%nat
              /\ forallb (cset_matches U f s) (firstn n rest) = true
              /\ k (pos + n)%nat (skipn n rest) cs = Some res.
Proof.
  induction rest as [|c rest IH]; intros lo pos H.
  - assert (Hstop : match lo with O => k pos [] cs | S _ => None end = Some res).
    { simpl in H. destruct g; [exact H|].
      apply first_some_inv in H. destruct H as [H|H]; [exact H | discriminate]. }
    destruct lo; [|discriminate]. exists 0%nat.
    split; [simpl; lia|]. split; [reflexivity|]. rewrite Nat.add_0_r. exact Hstop.
  - assert (Hc : (if cset_matches U f s c
                  then rep U f s g k (pred lo) (S pos) rest cs else None)
                 = Some res
                 \/ match lo with O => k pos (c :: rest) cs | S _ => None end
                    = Some res).
    { cbn [rep] in H. destruct g; apply first_some_inv in H; tauto. }
    destruct Hc as [Hc|Hc].
    + destruct (cset_matches U f s c) eqn:Ec; [|discriminate].
      destruct (IH _ _ Hc) as [n [Hn [Hf Hk]]]. exists (S n).
      split; [simpl; lia|]. split; [cbn [firstn forallb]; rewrite Ec, Hf; reflexivity|].
      rewrite Nat.add_succ_r. exact Hk.
    + destruct lo; [|discriminate]. exists 0%nat.
      split; [simpl; lia|]. split; [reflexivity|]. rewrite Nat.add_0_r. exact Hc.
Qed.

Lemma accept_transparent : transparent accept.
Proof. intros pos rest cs res [= <-]. reflexivity. Qed.

Lemma accept_after_transparent (start : nat) : transparent (accept_after start).
Proof.
  intros pos rest cs res H. unfold accept_after in H.
  destruct (Nat.eqb pos start); [discriminate|]. injection H as <-. reflexivity.
Qed.

(** A pattern without groups hands the groups on as it got them. *)
Lemma rmatch_plain (r : regex) :
  group_free r = true ->
  forall (k : cont) (pos : nat) (rest : str) (cs : caps) (res : nat * caps),
    rmatch U f r k pos rest cs = Some res ->
    exists n, (n <= List.length rest)%nat
              /\ k (pos + n)%nat (skipn n rest) cs = Some res.
Proof.
  induction r as [|s|s lo g|s|r1 IH1 r2 IH2|r1 IH1 r2 IH2|n r1 IH1| | |r1 IH1];
    intros Hg k pos rest cs res H; cbn [rmatch] in H; cbn [group_free] in Hg.
  - exists 0%nat. split; [lia|]. rewrite Nat.add_0_r. exact H.
  - destruct rest as [|c rest]; [discriminate|].
    destruct (cset_matches U f s c); [|discriminate].
    exists 1%nat. split; [simpl; lia|]. rewrite Nat.add_1_r. exact H.
  - destruct (rep_took s g k cs res rest lo pos H) as [n [Hn [_ Hk]]].
    exists n. split; [lia | exact Hk].
  - apply first_some_inv in H. destruct H as [H|H].
    + destruct rest as [|c rest]; [discriminate|].
      destruct (cset_matches U f s c); [|discriminate].
      exists 1%nat. split; [simpl; lia|]. rewrite Nat.add_1_r. exact H.
    + exists 0%nat. split; [lia|]. rewrite Nat.add_0_r. exact H.
  - apply andb_true_iff in Hg. destruct Hg as [Hg1 Hg2].
    destruct (IH1 Hg1 _ _ _ _ _ H) as [n1 [Hn1 H1]].
    destruct (IH2 Hg2 _ _ _ _ _ H1) as [n2 [Hn2 H2]].
    rewrite length_skipn in Hn2.
    exists (n1 + n2)%nat. split; [lia|].
    rewrite skipn_skipn in H2. rewrite Nat.add_assoc, (Nat.add_comm n1 n2). exact H2.
  - apply andb_true_iff in Hg. destruct Hg as [Hg1 Hg2].
    apply first_some_inv in H. destruct H as [H|H].
    + exact (IH1 Hg1 _ _ _ _ _ H).
    + exact (IH2 Hg2 _ _ _ _ _ H).
  - discriminate Hg.
  - destruct (Nat.eqb pos 0); [|discriminate].
    exists 0%nat. split; [lia|]. rewrite Nat.add_0_r. exact H.
  - exists 0%nat. split; [lia|]. rewrite Nat.add_0_r.
    destruct rest as [|c [|d rest]]; try discriminate; [exact H|].
    destruct (c =? NL); [exact H | discriminate].
  - destruct (rmatch U f r1 accept pos rest cs) as [[e1 cs1]|] eqn:E; [|discriminate].
    destruct (IH1 Hg _ _ _ _ _ E) as [n1 [_ H1]].
    injection H1 as _ <-.
    exists 0%nat. split; [lia|]. rewrite Nat.add_0_r. exact H.
Qed.

Hypothesis plain : white_space_is_plain U.

Lemma chr_not_space (x c : char) :
  is_space x = false -> cset_matches U f (one (I_chr x)) c = true ->
  is_space c = false.
Proof.
  intros Hx H. cbn [cset_matches one existsb item_matches xorb] in H.
  rewrite orb_false_r in H. apply orb_true_iff in H. destruct H as [H|H].
  - apply N.eqb_eq in H. subst c. exact Hx.
  - apply andb_true_iff in H. destruct H as [_ H].
    destruct (is_space c) eqn:Ec; [|reflexivity].
    rewrite <- (proj2 plain x c H (or_intror Ec)) in Ec. congruence.
Qed.

Lemma In_chars_of_range (lo hi x : char) :
  In x (chars_of_range lo hi) -> lo <= x <= hi.
Proof.
  unfold chars_of_range. intros H. apply in_map_iff in H.
  destruct H as [i [<- Hi]]. apply in_seq in Hi. lia.
Qed.

Lemma rng_not_space (lo hi c : char) :
  (forall x, lo <= x <= hi -> is_space x = false) ->
  cset_matches U f (one (I_rng lo hi)) c = true -> is_space c = false.
Proof.
  intros Hr H. cbn [cset_matches one existsb item_matches xorb] in H.
  rewrite orb_false_r in H. apply orb_true_iff in H. destruct H as [H|H].
  - apply andb_true_iff in H. destruct H as [H1 H2].
    apply N.leb_le in H1, H2. apply Hr. split; assumption.
  - apply andb_true_iff in H. destruct H as [_ H].
    apply existsb_exists in H. destruct H as [x [Hin Hx]].
    destruct (is_space c) eqn:Ec; [|reflexivity].
    rewrite <- (proj2 plain x c Hx (or_intror Ec)) in Ec.
    rewrite (Hr x (In_chars_of_range lo hi x Hin)) in Ec. discriminate Ec.
Qed.

Lemma digit_not_space (c : char) :
  cset_matches U f digit c = true -> is_space c = false.
Proof.
  intros H. cbn [cset_matches digit one existsb item_matches xorb] in H.
  rewrite orb_false_r in H.
  destruct (is_space c) eqn:Ec; [|reflexivity].
  rewrite (proj1 plain c Ec) in H. discriminate H.
Qed.

Lemma newline_is_caseless_of_plain : newline_is_caseless U.
Proof.
  intros c H. symmetry. apply (proj2 plain NL c H). left. reflexivity.
Qed.

(** What starts with a character of a set without white space, or with
    one or more of them, starts with text. *)
Lemma chr_starts_with_text (s : cset) (r : regex) :
  (forall c, cset_matches U f s c = true -> is_space c = false) ->
  starts_with_text U f (Seq (Chr s) r).
Proof.
  intros Hs k pos rest cs res H. cbn [rmatch] in H.
  destruct rest as [|c rest]; [discriminate|].
  destruct (cset_matches U f s c) eqn:Ec; [|discriminate].
  exists c, rest. split; [reflexivity | exact (Hs c Ec)].
Qed.

Lemma plus_starts_with_text (s : cset) (r : regex) :
  (forall c, cset_matches U f s c = true -> is_space c = false) ->
  starts_with_text U f (Seq (plus s) r).
Proof.
  intros Hs k pos rest cs res H. cbn [rmatch plus] in H.
  destruct (rep_took _ _ _ _ _ _ _ _ H) as [n [Hn [Hf _]]].
  destruct rest as [|c rest]; [simpl in Hn; lia|].
  destruct n as [|n]; [lia|]. cbn [firstn forallb] in Hf.
  apply andb_true_iff in Hf. destruct Hf as [Hc _].
  exists c, rest. split; [reflexivity | exact (Hs c Hc)].
Qed.

Lemma alt_starts_with_text (r1 r2 : regex) :
  starts_with_text U f r1 -> starts_with_text U f r2 ->
  starts_with_text U f (Alt r1 r2).
Proof.
  intros H1 H2 k pos rest cs res H. cbn [rmatch] in H.
  apply first_some_inv in H. destruct H as [H|H]; [exact (H1 _ _ _ _ _ H)|].
  exact (H2 _ _ _ _ _ H).
Qed.

Lemma lit_starts_with_text (x : char) (s : str) :
  is_space x = false -> starts_with_text U f (lit (x :: s)).
Proof.
  intros Hx. cbn [lit]. apply chr_starts_with_text.
  intros c. apply chr_not_space, Hx.
Qed.

(** The shape of a match of a heading pattern: a newline, white space, and
    group 1, which starts with text, from there on. *)
Lemma heading_shape (g tail : regex) (k : cont) (pos : nat) (rest : str)
    (cs : caps) (res : nat * caps) :
  group_free g = true -> group_free tail = true -> starts_with_text U f g ->
  transparent k ->
  rmatch U f (Seq (chr NL) (Seq (star space) (Seq (Grp 1 g) tail))) k pos rest cs
  = Some res ->
  exists ws body ng,
    rest = NL :: ws ++ body
    /\ forallb is_space ws = true
    /\ head_not is_space body
    /\ get_cap 1 (snd res)
       = Some ((S pos + List.length ws)%nat, (S pos + List.length ws + ng)%nat).
Proof.
  intros Hg Htail Hstart Hk H. cbn [rmatch chr star] in H.
  destruct rest as [|c rest1]; [discriminate|].
  destruct (cset_matches U f (one (I_chr NL)) c) eqn:Ec; [|discriminate].
  apply (newline_only U f c newline_is_caseless_of_plain) in Ec. subst c.
  destruct (rep_took _ _ _ _ _ _ _ _ H) as [nw [Hnw [Hws H1]]].
  destruct (Hstart _ _ _ _ _ H1) as [c [body' [Hbody Hc]]].
  destruct (rmatch_plain g Hg _ _ _ _ _ H1) as [ng [_ H2]].
  destruct (rmatch_plain tail Htail _ _ _ _ _ H2) as [nt [_ H3]].
  apply Hk in H3.
  exists (firstn nw rest1), (skipn nw rest1), ng.
  split; [rewrite firstn_skipn; reflexivity|].
  split.
  { rewrite <- Hws. apply forallb_same. intros d.
    cbn [cset_matches space one existsb item_matches xorb].
    rewrite orb_false_r. reflexivity. }
  split; [rewrite Hbody; exact Hc|].
  rewrite H3. cbn [get_cap set_cap Nat.eqb].
  rewrite length_firstn, Nat.min_l by lia. reflexivity.
Qed.

End HeadingMatches.

Lemma capitals_are_not_spaces (x : char) : 65 <= x <= 90 -> is_space x = false.
Proof.
  intros H. unfold is_space.
  repeat match goal with
         | |- context [?a <=? ?b] =>
             destruct (N.leb_spec a b); try lia; cbn [andb orb]
         | |- context [?a =? ?b] =>
             destruct (N.eqb_spec a b); try lia; cbn [andb orb]
         end;
    try reflexivity.
Qed.

Section HeadingPatterns.

Variable U : unicode.
Hypothesis plain : white_space_is_plain U.

Lemma section_patterns_headings :
  Forall (heading_pattern U icase) section_patterns.
Proof.
  unfold section_patterns. repeat constructor.
  - eexists. exists (chr NL). split; [reflexivity|].
    split; [reflexivity|]. split; [reflexivity|].
    cbn [seqs]. apply plus_starts_with_text. apply digit_not_space, plain.
  - eexists. exists (chr NL). split; [reflexivity|].
    split; [reflexivity|]. split; [reflexivity|].
    apply chr_starts_with_text. intros c.
    apply (rng_not_space U icase plain). exact capitals_are_not_spaces.
  - eexists. exists (Seq (star space) (chr NL)). split; [reflexivity|].
    split; [reflexivity|]. split; [reflexivity|].
    cbn [alts].
    repeat (apply alt_starts_with_text;
            [apply (lit_starts_with_text U icase plain); reflexivity|]).
    apply (lit_starts_with_text U icase plain). reflexivity.
Qed.

Lemma match_heads (pattern : regex) (k : cont) (text pre rest : str) (pos e : nat)
    (cs : caps) :
  heading_pattern U icase pattern -> transparent k ->
  text = pre ++ rest -> List.length pre = pos ->
  rmatch U icase pattern k pos rest [] = Some (e, cs) ->
  heads text (Match pos e cs).
Proof.
  intros [g [tail [-> [Hg [Htail Hstart]]]]] Hk Ht Hpre H.
  destruct (heading_shape U icase plain g tail k pos rest [] (e, cs)
              Hg Htail Hstart Hk H) as [ws [body [ng [Hr [Hws [Hb Hcap]]]]]].
  exists pre, ws, body, ng. cbn [snd] in Hcap.
  split; [rewrite Ht, Hr; reflexivity|]. split; [exact Hpre|].
  split; [exact Hws|]. split; [exact Hb|].
  unfold group. cbn [m_caps]. rewrite Hcap. f_equal. unfold slice.
  replace (S pos + List.length ws + ng - (S pos + List.length ws))%nat with ng by lia.
  f_equal. rewrite Ht, Hr.
  change (pre ++ NL :: ws ++ body) with (pre ++ (NL :: ws) ++ body).
  rewrite app_assoc, skipn_app.
  rewrite skipn_all2 by (rewrite length_app; cbn [List.length]; lia).
  replace (S pos + List.length ws - List.length (pre ++ NL :: ws))%nat with 0%nat
    by (rewrite length_app; cbn [List.length]; lia).
  reflexivity.
Qed.

Lemma matches_here_heads (pattern : regex) (text pre rest : str) (pos : nat) :
  heading_pattern U icase pattern ->
  text = pre ++ rest -> List.length pre = pos ->
  Forall (heads text) (matches_here U icase pattern pos rest).
Proof.
  intros Hp Ht Hpre. unfold matches_here, match_at, match_after_empty.
  destruct (rmatch U icase pattern accept pos rest []) as [[e cs]|] eqn:E;
    [|constructor].
  pose proof (match_heads pattern accept text pre rest pos e cs Hp
                accept_transparent Ht Hpre E) as Hm.
  cbn [m_end]. destruct (Nat.eqb e pos); [|repeat constructor; exact Hm].
  constructor; [exact Hm|].
  destruct (rmatch U icase pattern (accept_after pos) pos rest []) as [[e' cs']|] eqn:E';
    [|constructor].
  repeat constructor.
  exact (match_heads pattern (accept_after pos) text pre rest pos e' cs' Hp
           (accept_after_transparent pos) Ht Hpre E').
Qed.

Lemma finditer_go_heads (pattern : regex) (text : str) :
  heading_pattern U icase pattern ->
  forall rest skip pos pre,
    text = pre ++ rest -> List.length pre = pos ->
    Forall (heads text) (finditer_go U icase pattern skip pos rest).
Proof.
  intros Hp. induction rest as [|c rest IH]; intros skip pos pre Ht Hpre.
  - destruct skip; cbn [finditer_go]; [|constructor].
    rewrite app_nil_r. exact (matches_here_heads pattern text pre [] pos Hp Ht Hpre).
  - assert (Hnext : forall skip', Forall (heads text)
                                    (finditer_go U icase pattern skip' (S pos) rest)).
    { intros skip'. apply (IH skip' (S pos) (pre ++ [c])).
      - rewrite <- app_assoc. exact Ht.
      - rewrite length_app. cbn [List.length]. lia. }
    destruct skip; cbn [finditer_go]; [|apply Hnext].
    apply Forall_app. split; [|apply Hnext].
    exact (matches_here_heads pattern text pre (c :: rest) pos Hp Ht Hpre).
Qed.

Lemma add_breaks_heading_breaks (text : str) (matches : list rmatch_obj) :
  Forall (heads text) matches ->
  forall section_breaks found,
    Forall (heading_break text) section_breaks ->
    add_breaks text matches section_breaks = Returns found ->
    Forall (heading_break text) found.
Proof.
  induction 1 as [|m more Hm Hmore IH]; intros bs found Hbs H; cbn [add_breaks] in H.
  - injection H as <-. exact Hbs.
  - destruct Hm as [pre [ws [body [ng [Ht [Hpre [Hws [Hb Hg]]]]]]]].
    unfold group_strip in H. rewrite Hg in H. cbn [bind] in H.
    refine (IH _ _ _ H).
    destruct (List.length (strip (firstn ng body)) <? 100)%nat; [|exact Hbs].
    apply Forall_app. split; [exact Hbs|]. constructor; [|constructor].
    right. cbn [fst snd]. exists pre, ws, body, ng. repeat split; assumption.
Qed.

Lemma scan_patterns_heading_breaks (text : str) (patterns : list regex) :
  Forall (heading_pattern U icase) patterns ->
  forall section_breaks found,
    Forall (heading_break text) section_breaks ->
    scan_patterns U text patterns section_breaks = Returns found ->
    Forall (heading_break text) found.
Proof.
  induction 1 as [|p ps Hp Hps IH]; intros bs found Hbs H; cbn [scan_patterns] in H.
  - injection H as <-. exact Hbs.
  - destruct (add_breaks text (re_finditer U icase p text) bs) as [bs'|e] eqn:E;
      [|discriminate H].
    cbn [bind] in H. refine (IH _ _ _ H).
    refine (add_breaks_heading_breaks text _ _ _ _ Hbs E).
    unfold re_finditer. exact (finditer_go_heads p text Hp text 0%nat 0%nat [] eq_refl eq_refl).
Qed.

Lemma section_breaks_heading_breaks (text : str) (breaks : list (nat * str)) :
  section_breaks U text = Returns breaks -> Forall (heading_break text) breaks.
Proof.
  unfold section_breaks. intros H.
  destruct (scan_patterns U text section_patterns [(0%nat, start_title)])
    as [found|e] eqn:E; [|discriminate H].
  cbn [bind] in H. injection H as <-.
  assert (Hf : Forall (heading_break text) found).
  { refine (scan_patterns_heading_breaks text _ section_patterns_headings _ _ _ E).
    constructor; [left; reflexivity | constructor]. }
  rewrite Forall_forall in Hf |- *. intros b Hb. apply Hf.
  apply sort_breaks_In. exact Hb.
Qed.

End HeadingPatterns.

Lemma candidate_sections_begin (text : str) (breaks : list (nat * str)) :
  Forall (fun b => heading_break text b /\ heading_like text (snd b)) breaks ->
  Forall (fun s => (100 < List.length (content s))%nat ->
                   title s = start_title \/ exists rest, content s = title s ++ rest)
    (candidate_sections text breaks).
Proof.
  induction 1 as [|[start_pos heading] more [Hb [Hl _]] Hmore IH]; [constructor|].
  cbn [candidate_sections]. cbn [fst snd] in Hb, Hl.
  destruct more as [|[next_pos heading'] more].
  - constructor; [|constructor]. cbn [title content]. intros Hlen.
    destruct Hb as [Hb|Hb]; [left; exact Hb | right].
    rewrite <- (firstn_all (skipn start_pos text)) in Hlen |- *.
    apply (content_begins_with_heading text start_pos heading _ Hb). lia.
  - constructor; [|exact IH]. cbn [title content]. intros Hlen.
    destruct Hb as [Hb|Hb]; [left; exact Hb | right].
    unfold slice in Hlen |- *.
    apply (content_begins_with_heading text start_pos heading _ Hb). lia.
Qed.

(** X13: provided white space has no other case and is no digit, every
    section [split_into_sections] returns, but for the one of the text's
    start, begins with its own title: the heading is the start of the
    content. *)
Theorem sections_begin_with_their_heading (U : unicode) (text : str)
    (secs : list section) :
  white_space_is_plain U ->
  split_into_sections U text = Returns secs ->
  Forall (fun s => title s = start_title
                   \/ exists rest, content s = title s ++ rest) secs.
Proof.
  intros HU H.
  destruct (split_into_sections_returns U text) as [breaks [Hb Hs]].
  rewrite Hs in H. injection H as <-. rewrite sections_of_breaks.
  assert (Hc : Forall (fun b => heading_break text b /\ heading_like text (snd b))
                 breaks).
  { pose proof (section_breaks_heading_breaks U HU text breaks Hb) as H1.
    pose proof (section_breaks_headings U text breaks Hb) as H2.
    rewrite Forall_forall in H1, H2 |- *. intros b Hin. split; auto. }
  pose proof (candidate_sections_begin text breaks Hc) as Hcs.
  apply Forall_forall. intros s Hin. apply filter_In in Hin.
  destruct Hin as [Hin Hlen]. rewrite Forall_forall in Hcs.
  apply Nat.ltb_lt in Hlen. exact (Hcs s Hin Hlen).
Qed.

Lemma visible_is_not_space (x : char) : 33 <= x <= 132 -> is_space x = false.
Proof.
  intros H. unfold is_space.
  repeat match goal with
         | |- context [?a <=? ?b] =>
             destruct (N.leb_spec a b); try lia; cbn [andb orb]
         | |- context [?a =? ?b] =>
             destruct (N.eqb_spec a b); try lia; cbn [andb orb]
         end;
    try reflexivity.
Qed.

Lemma basic_latin_white_space_is_plain : white_space_is_plain basic_latin.
Proof.
  split.
  - intros c Hc. cbn [is_decimal basic_latin].
    destruct (N.leb_spec 48 c); [|reflexivity].
    destruct (N.leb_spec c 57); [|reflexivity].
    rewrite visible_is_not_space in Hc by lia. discriminate Hc.
  - intros x c H Hs. cbn [ci_eq basic_latin] in H. apply N.eqb_eq in H.
    unfold ascii_lower in H.
    destruct (N.leb_spec 65 x); destruct (N.leb_spec x 90);
      destruct (N.leb_spec 65 c); destruct (N.leb_spec c 90);
      cbn [andb] in H; try lia;
      exfalso;
      (assert (Hx : is_space x = false) by (apply visible_is_not_space; lia));
      (assert (Hc : is_space c = false) by (apply visible_is_not_space; lia));
      rewrite Hx, Hc in Hs; destruct Hs as [Hs|Hs]; discriminate Hs.
Qed.

Lemma sections_begin_with_their_heading_witness :
  Forall (fun s => title s = start_title
                   \/ exists rest, content s = title s ++ rest)
    [Section_ start_title scenario_1_introduction;
     Section_ (py "2. Conclusion") scenario_1_conclusion].
Proof.
  apply (sections_begin_with_their_heading basic_latin scenario_1 _
           basic_latin_white_space_is_plain).
  vm_compute. reflexivity.
Defined.

(** ** The sections tile the text *)

Lemma add_breaks_keeps_head (text : str) (b : nat * str) (matches : list rmatch_obj) :
  forall more found,
    add_breaks text matches (b :: more) = Returns found ->
    exists more', found = b :: more'.
Proof.
  induction matches as [|m ms IH]; intros more found H; cbn [add_breaks] in H.
  - injection H as <-. eexists. reflexivity.
  - destruct (group_strip text m 1) as [g|e]; [|discriminate H]. cbn [bind] in H.
    destruct (List.length g <? 100)%nat; exact (IH _ _ H).
Qed.

Lemma scan_patterns_keeps_head (U : unicode) (text : str) (b : nat * str)
    (patterns : list regex) :
  forall more found,
    scan_patterns U text patterns (b :: more) = Returns found ->
    exists more', found = b :: more'.
Proof.
  induction patterns as [|p ps IH]; intros more found H; cbn [scan_patterns] in H.
  - injection H as <-. eexists. reflexivity.
  - destruct (add_breaks text (re_finditer U icase p text) (b :: more))
      as [bs|e] eqn:E; [|discriminate H].
    cbn [bind] in H. destruct (add_breaks_keeps_head text b _ _ _ E) as [more' ->].
    exact (IH _ _ H).
Qed.

(** The sorted boundaries begin at the start of the text. *)
Lemma section_breaks_from_start (U : unicode) (text : str) :
  exists others,
    section_breaks U text = Returns ((0%nat, start_title) :: others)
    /\ ascending ((0%nat, start_title) :: others).
Proof.
  destruct (section_breaks_returns U text) as [breaks Hb].
  unfold section_breaks in Hb |- *.
  destruct (scan_patterns U text section_patterns [(0%nat, start_title)])
    as [found|e] eqn:E; [|discriminate Hb].
  destruct (scan_patterns_keeps_head U text _ _ _ _ E) as [more ->].
  cbn [bind]. exists (sort_breaks more).
  assert (Hs : sort_breaks ((0%nat, start_title) :: more)
               = (0%nat, start_title) :: sort_breaks more).
  { cbn [sort_breaks]. destruct (sort_breaks more); reflexivity. }
  rewrite Hs. split; [reflexivity|]. rewrite <- Hs. apply sort_breaks_ascending.
Qed.

Lemma slice_then_rest (text : str) (a b : nat) :
  (a <= b)%nat -> slice text a b ++ skipn b text = skipn a text.
Proof.
  intros H. unfold slice.
  replace (skipn b text) with (skipn (b - a) (skipn a text)).
  - apply firstn_skipn.
  - rewrite skipn_skipn. f_equal. lia.
Qed.

(** The pieces cut by boundaries in ascending order make up the text from
    the first boundary on. *)
Lemma section_pieces_concat (text : str) (breaks : list (nat * str)) :
  ascending breaks ->
  concat (section_pieces text breaks)
  = match breaks with
    | [] => []
    | b :: _ => skipn (fst b) text
    end.
Proof.
  induction breaks as [|[start_pos heading] more IH]; intros H; [reflexivity|].
  cbn [section_pieces]. destruct more as [|[next_pos heading'] more].
  - cbn [concat fst]. apply app_nil_r.
  - cbn [ascending fst] in H. destruct H as [Hle Hmore].
    cbn [concat]. rewrite (IH Hmore). cbn [fst].
    apply slice_then_rest, Hle.
Qed.

Lemma candidate_sections_pieces (text : str) (breaks : list (nat * str)) :
  map content (candidate_sections text breaks) = map strip (section_pieces text breaks)
  /\ map title (candidate_sections text breaks) = map snd breaks.
Proof.
  induction breaks as [|[start_pos heading] more [IH1 IH2]]; [split; reflexivity|].
  cbn [candidate_sections section_pieces].
  destruct more as [|[next_pos heading'] more]; [split; reflexivity|].
  cbn [map content title snd]. rewrite IH1, IH2. split; reflexivity.
Qed.

(** X14: the boundaries cut every text into consecutive pieces that
    together are the whole text.  The sections [split_into_sections]
    returns are, in this order, these pieces trimmed, under the titles of
    their boundaries, but for those that are not longer than 100
    characters: nothing else of the text is left out. *)
Theorem sections_tile_the_text (U : unicode) (text : str) :
  exists breaks,
    section_breaks U text = Returns breaks
    /\ concat (section_pieces text breaks) = text
    /\ map content (candidate_sections text breaks)
       = map strip (section_pieces text breaks)
    /\ map title (candidate_sections text breaks) = map snd breaks
    /\ split_into_sections U text
       = Returns (filter (fun s => (100 <? List.length (content s))%nat)
                    (candidate_sections text breaks)).
Proof.
  destruct (section_breaks_from_start U text) as [others [Hb Ha]].
  exists ((0%nat, start_title) :: others).
  split; [exact Hb|].
  split; [rewrite (section_pieces_concat text _ Ha); reflexivity|].
  destruct (candidate_sections_pieces text ((0%nat, start_title) :: others)) as [H1 H2].
  split; [exact H1|]. split; [exact H2|].
  destruct (split_into_sections_returns U text) as [breaks [Hb' Hs]].
  rewrite Hb in Hb'. injection Hb' as <-.
  rewrite Hs, sections_of_breaks. reflexivity.
Qed.
